(** * roblox-visit-counter: the visit aggregation endpoint

    A shallow embedding of [api/visits.js] and [api/get-visits.js]: the
    developer-role classifier, the module-level memo cache (a JavaScript
    [Map]) and the request handler with its three upstream fetches.

    Conventions of the embedding
    - JavaScript numbers are exact integers ([Z]); the counters of the games
      API are integers far below 2^53.
    - Strings are byte strings; [toLowerCase] maps the ASCII letters only.
      The role vocabulary is ASCII, none of its words ends in [i] and none
      contains [k], so no non-ASCII case mapping can create or destroy a
      match.
    - A JSON object received from upstream is a record of the properties the
      handler reads, each of which may be absent ([undefined]); a [data]
      array holds objects, [placeVisits] and [id] are numbers and a role
      [name] is a string.
    - The [userId] parameter occurs at most once in the query string.
    - [console.log] and [console.error] are not modelled.
    - The handler runs in a state monad over the [world]: the module-level
      cache and the list of URLs handed to [fetch].  An exception leaves the
      world as it was when it was thrown. *)

From Stdlib Require Import ZArith NArith List String Ascii Bool Lia DecimalString Permutation.
Import ListNotations.
Open Scope string_scope.
Open Scope Z_scope.

(** ** JavaScript primitives *)

Module JS.

(** [String.prototype.toLowerCase], on the ASCII letters. *)
Definition lower_char (c : ascii) : ascii :=
  let n := nat_of_ascii c in
  if (Nat.leb 65 n && Nat.leb n 90)%bool then ascii_of_nat (n + 32) else c.

Fixpoint toLowerCase (s : string) : string :=
  match s with
  | EmptyString => EmptyString
  | String c s' => String (lower_char c) (toLowerCase s')
  end.

(** [s.startsWith(pat)] *)
Fixpoint startsWith (s pat : string) {struct pat} : bool :=
  match pat, s with
  | EmptyString, _ => true
  | String _ _, EmptyString => false
  | String p pat', String c s' => (Ascii.eqb c p && startsWith s' pat')%bool
  end.

(** [s.includes(pat)]: [pat] occurs in [s] at some position. *)
Fixpoint includes (s pat : string) : bool :=
  (startsWith s pat ||
   match s with
   | EmptyString => false
   | String _ s' => includes s' pat
   end)%bool.

(** [arr.some(p)] *)
Definition some {A : Type} (p : A -> bool) (arr : list A) : bool := existsb p arr.

(** The character class [\d]. *)
Definition is_digit (c : ascii) : bool :=
  let n := nat_of_ascii c in (Nat.leb 48 n && Nat.leb n 57)%bool.

Fixpoint all_digits (s : string) : bool :=
  match s with
  | EmptyString => true
  | String c s' => (is_digit c && all_digits s')%bool
  end.

(** [/^\d+$/.test(s)]: one digit at least, and digits only. *)
Definition test_digits (s : string) : bool :=
  match s with
  | EmptyString => false
  | String _ _ => all_digits s
  end.

(** A number in a template literal. *)
Definition show_number (z : Z) : string := NilZero.string_of_int (Z.to_int z).

(** An optional number in a template literal: [undefined] prints as such. *)
Definition show (v : option Z) : string :=
  match v with
  | Some z => show_number z
  | None => "undefined"
  end.

(** [x || d] for a property that may be absent. *)
Definition or_else {A : Type} (x : option A) (d : A) : A :=
  match x with
  | Some a => a
  | None => d
  end.

(** [n || 0] on numbers: an absent number and [0] both give [0]. *)
Definition or_zero (x : option Z) : Z := or_else x 0.

End JS.

(** ** [Map]: keys in insertion order *)

Module Map.
Section Defs.
Context {V : Type}.

Definition t := list (string * V).

Definition empty : t := [].

Fixpoint get (k : string) (m : t) : option V :=
  match m with
  | [] => None
  | (k', v) :: m' => if String.eqb k' k then Some v else get k m'
  end.

(** [set] on a key that is present replaces its value where it stands;
    a new key goes to the end. *)
Fixpoint set (k : string) (v : V) (m : t) : t :=
  match m with
  | [] => [(k, v)]
  | (k', v') :: m' => if String.eqb k' k then (k, v) :: m' else (k', v') :: set k v m'
  end.

Fixpoint delete (k : string) (m : t) : t :=
  match m with
  | [] => []
  | (k', v) :: m' => if String.eqb k' k then m' else (k', v) :: delete k m'
  end.

Definition size (m : t) : Z := Z.of_nat (List.length m).

Definition keys (m : t) : list string := map fst m.

(** [m.keys().next().value] *)
Definition first_key (m : t) : option string := hd_error (keys m).

End Defs.
Arguments t : clear implicits.
End Map.

(** ** Data *)

(** The [breakdown] object of a success body. *)
Record breakdown := {
  personalVisits : Z;
  groupVisits : Z;
  totalGames : Z;
  personalGames : Z;
  groupGames : Z
}.

(** The success body; [timestamp] is the instant (in ms) that the ISO-8601
    string renders. *)
Record result := {
  success : bool;
  totalVisits : Z;
  the_breakdown : breakdown;
  note : string;
  timestamp : Z
}.

(** A value of the module-level cache: [{ data, timestamp }]. *)
Record cached := {
  data : result;
  storedAt : Z
}.

(** What [res] sends. *)
Inductive body :=
| NoBody
| ErrorBody (error : string) (usage : option string)
| SuccessBody (r : result)
| FailureBody (error details userId : string).

Record response := {
  statusCode : Z;
  headers : list (string * string);
  sent : option body
}.

(** A fresh response object: status 200 until [status] is called. *)
Definition res0 : response :=
  {| statusCode := 200; headers := []; sent := None |}.

Definition setHeader (k v : string) (res : response) : response :=
  {| statusCode := statusCode res; headers := (headers res ++ [(k, v)])%list; sent := sent res |}.

Definition status (code : Z) (res : response) : response :=
  {| statusCode := code; headers := headers res; sent := sent res |}.

Definition json (b : body) (res : response) : response :=
  {| statusCode := statusCode res; headers := headers res; sent := Some b |}.

Definition end_ (res : response) : response :=
  {| statusCode := statusCode res; headers := headers res; sent := Some NoBody |}.

(** [req]: the method and [req.query.userId]. *)
Record request := {
  method : string;
  query_userId : option string
}.

(** Upstream JSON.  [role] and [group] of a membership, and an element of a
    [data] array with the properties read from it. *)
Record role_obj := { role_name : option string }.
Record group_obj := { group_id : option Z; group_name : option string }.
Record entry := {
  placeVisits : option Z;
  role : option role_obj;
  group : option group_obj
}.
Record payload := { payload_data : option (list entry) }.

(** What [fetch(url)] does: it rejects, or it resolves to a response whose
    [json()] rejects or parses. *)
Inductive fetch_outcome :=
| Rejected (message : string)
| Responded (http_status : N) (statusText : string) (parsed : string + payload).

(** [response.ok] *)
Definition ok (http_status : N) : bool :=
  (N.leb 200 http_status && N.leb http_status 299)%bool.

(** A thrown [Error] with its message. *)
Inductive exn := Error (message : string).

Definition message_of (e : exn) : string := let 'Error m := e in m.

(** The surroundings of one invocation: the upstream behind [fetch], which
    sees the URL and the request headers and answers a URL the same way
    throughout the invocation, and the three readings of the clock (at the
    cache check, for the stamp of the result, for the stamp of the cache
    entry). *)
Record env := {
  upstream : string -> list (string * string) -> fetch_outcome;
  now_lookup : Z;
  now_result : Z;
  now_store : Z
}.

(** The state that outlives a statement: the module-level [cache] and the
    URLs fetched so far, oldest first. *)
Record world := {
  cache : Map.t cached;
  fetched : list string
}.

(** ** The monad of the handler's [try] blocks *)

Definition M (A : Type) : Type := world -> (exn + A) * world.

Definition ret {A} (a : A) : M A := fun w => (inr a, w).

Definition bind {A B} (c : M A) (k : A -> M B) : M B :=
  fun w =>
    match c w with
    | (inr a, w') => k a w'
    | (inl e, w') => (inl e, w')
    end.

Definition throw {A} (e : exn) : M A := fun w => (inl e, w).

Definition try_catch {A} (c : M A) (h : exn -> M A) : M A :=
  fun w =>
    match c w with
    | (inr a, w') => (inr a, w')
    | (inl e, w') => h e w'
    end.

Declare Scope js_scope.
Delimit Scope js_scope with js.
Notation "x <- c ;; k" := (bind c (fun x => k))
  (at level 100, c at next level, right associativity) : js_scope.
Notation "c ;; k" := (bind c (fun _ => k))
  (at level 100, right associativity) : js_scope.
Notation "' p <- c ;; k" := (bind c (fun x => let p := x in k))
  (at level 100, p pattern, c at next level, right associativity) : js_scope.
Notation "'try' c 'catch' h" := (try_catch c h)
  (at level 100, c at next level, h at next level) : js_scope.
Open Scope js_scope.

(** The [TypeError] of reading property [prop] of [undefined]. *)
Definition undefined_read (prop : string) : exn :=
  Error ("Cannot read properties of undefined (reading '" ++ prop ++ "')").

(** Reading property [prop] of a value that may be [undefined]. *)
Definition read {A} (o : option A) (prop : string) : M A :=
  match o with
  | Some a => ret a
  | None => throw (undefined_read prop)
  end.

(** [fetch(url, { headers })]: the call is recorded and answered by the
    upstream. *)
Definition fetch (e : env) (url : string) (hdrs : list (string * string))
  : M (N * string * (string + payload)) :=
  fun w =>
    let w' := {| cache := cache w; fetched := (fetched w ++ [url])%list |} in
    match upstream e url hdrs with
    | Rejected m => (inl (Error m), w')
    | Responded st txt parsed => (inr (st, txt, parsed), w')
    end.

(** [response.json()] *)
Definition parse (parsed : string + payload) : M payload :=
  match parsed with
  | inl m => throw (Error m)
  | inr p => ret p
  end.

Definition cache_set (k : string) (v : cached) : M unit :=
  fun w => (inr tt, {| cache := Map.set k v (cache w); fetched := fetched w |}).

Definition cache_delete (k : string) : M unit :=
  fun w => (inr tt, {| cache := Map.delete k (cache w); fetched := fetched w |}).

Definition cache_size : M Z := fun w => (inr (Map.size (cache w)), w).

Definition cache_first_key : M (option string) :=
  fun w => (inr (Map.first_key (cache w)), w).

(** The three upstream URLs. *)
Definition userGamesUrl (userId : string) : string :=
  "https://games.roblox.com/v2/users/" ++ userId ++ "/games?accessFilter=2&limit=50&sortOrder=Desc".

Definition userGroupsUrl (userId : string) : string :=
  "https://groups.roblox.com/v2/users/" ++ userId ++ "/groups/roles".

Definition groupGamesUrl (groupId : option Z) : string :=
  "https://games.roblox.com/v2/groups/" ++ JS.show groupId ++ "/games?accessFilter=1&limit=50&sortOrder=Desc".

#[global] Arguments userGamesUrl : simpl never.
#[global] Arguments userGroupsUrl : simpl never.
#[global] Arguments groupGamesUrl : simpl never.

Definition advisory : string :=
  "Using placeVisits from games API. For exact universe visits, add Roblox Cloud API key.".

(** The body of both [for (const game of ...)] loops: the visits of [game],
    zero when it has none, go to the sum and the count goes up by one. *)
Definition count_game (acc : Z * Z) (game : entry) : Z * Z :=
  let '(visitSum, gameCount) := acc in
  let visits := JS.or_zero (placeVisits game) in
  (visitSum + visits, gameCount + 1).

Definition for_games (games : list entry) (acc : Z * Z) : Z * Z :=
  fold_left count_game games acc.

(** ** [api/visits.js] *)

Module Visits.

Definition DEVELOPER_ROLES : list string :=
  [ "developer"; "builder"; "scripter"; "programmer";
    "lead developer"; "co-owner"; "owner"; "dev";
    "game developer"; "lead scripter"; "head developer" ].

Definition CACHE_DURATION : Z := 5 * 60 * 1000.

Definition isDeveloperRole (roleName : string) : bool :=
  let lower := JS.toLowerCase roleName in
  JS.some (fun role => JS.includes lower role) DEVELOPER_ROLES.

(** The [headers] option of the [fetch] call. *)
Definition fetch_headers : list (string * string) :=
  [ ("User-Agent",
     "Mozilla/5.0 (Windows NT 10.0; Win64; x64) AppleWebKit/537.36 (KHTML, like Gecko) Chrome/120.0.0.0 Safari/537.36") ].

Definition fetchJSON (e : env) (url : string) : M payload :=
  ' (http_status, _, parsed) <- fetch e url fetch_headers ;;
  if negb (ok http_status)
  then throw (Error ("HTTP " ++ NilEmpty.string_of_uint (N.to_uint http_status)))
  else parse parsed.

(** [for (const groupData of groups)], with [groupVisits] and
    [groupGameCount] in [acc].  The reads of [role.name], [toLowerCase] and
    [group.id] stand outside the inner [try]. *)
Fixpoint for_groups (e : env) (groups : list entry) (acc : Z * Z) : M (Z * Z) :=
  match groups with
  | [] => ret acc
  | groupData :: rest =>
      r <- read (role groupData) "name" ;;
      roleName <- read (role_name r) "toLowerCase" ;;
      if negb (isDeveloperRole roleName) then for_groups e rest acc
      else
        g <- read (group groupData) "id" ;;
        let groupId := group_id g in
        acc' <- (try
                   (groupGamesData <- fetchJSON e (groupGamesUrl groupId) ;;
                    let groupGames := JS.or_else (payload_data groupGamesData) [] in
                    ret (for_games groupGames acc))
                 catch (fun err => ret acc)) ;;
        for_groups e rest acc'
  end.

(** The outer [try] block.  The sums assigned inside an inner [try] are its
    value: after the fetch no statement of the block can throw. *)
Definition aggregate (e : env) (userId cacheKey : string) (res : response) : M response :=
  ' (personalVisits, personalGameCount) <-
      (try
         (userGamesData <- fetchJSON e (userGamesUrl userId) ;;
          let userGames := JS.or_else (payload_data userGamesData) [] in
          ret (for_games userGames (0, 0)))
       catch (fun err => ret (0, 0))) ;;
  groups <-
      (try
         (groupsData <- fetchJSON e (userGroupsUrl userId) ;;
          ret (JS.or_else (payload_data groupsData) []))
       catch (fun err => ret [])) ;;
  ' (groupVisits, groupGameCount) <- for_groups e groups (0, 0) ;;
  let totalVisits := personalVisits + groupVisits in
  let totalGames := personalGameCount + groupGameCount in
  let result :=
    {| success := true;
       totalVisits := totalVisits;
       the_breakdown :=
         {| personalVisits := personalVisits;
            groupVisits := groupVisits;
            totalGames := totalGames;
            personalGames := personalGameCount;
            groupGames := groupGameCount |};
       note := advisory;
       timestamp := now_result e |} in
  cache_set cacheKey {| data := result; storedAt := now_store e |} ;;
  size <- cache_size ;;
  (if 100 <? size
   then
     firstKey <- cache_first_key ;;
     match firstKey with
     | Some k => cache_delete k
     | None => ret tt
     end
   else ret tt) ;;
  ret (json (SuccessBody result) (status 200 res)).

Definition handler (e : env) (req : request) (w : world) : response * world :=
  let res := setHeader "Access-Control-Allow-Origin" "*" res0 in
  let res := setHeader "Access-Control-Allow-Methods" "GET, OPTIONS" res in
  let res := setHeader "Access-Control-Allow-Headers" "Content-Type" res in
  if String.eqb (method req) "OPTIONS" then (end_ (status 200 res), w)
  else
    let missing :=
      (json (ErrorBody "Missing userId parameter" (Some "GET /api/get-visits?userId=123456"))
            (status 400 res), w) in
    match query_userId req with
    | None => missing
    | Some userId =>
        if String.eqb userId "" then missing
        else if negb (JS.test_digits userId)
        then (json (ErrorBody "Invalid userId - must be numeric" None) (status 400 res), w)
        else
          let cacheKey := "visits_" ++ userId in
          let run :=
            match aggregate e userId cacheKey res w with
            | (inr sent_res, w') => (sent_res, w')
            | (inl error, w') =>
                (json (FailureBody "Failed to fetch visit data" (message_of error) userId)
                      (status 500 res), w')
            end in
          match Map.get cacheKey (cache w) with
          | Some cached =>
              if now_lookup e - storedAt cached <? CACHE_DURATION
              then (json (SuccessBody (data cached)) (status 200 res), w)
              else run
          | None => run
          end
    end.

End Visits.

(** ** [api/get-visits.js] *)

Module GetVisits.

Definition DEVELOPER_ROLES : list string :=
  [ "developer"; "builder"; "scripter"; "programmer";
    "lead developer"; "co-owner"; "owner"; "dev";
    "game developer"; "lead scripter"; "head developer" ].

Definition CACHE_DURATION : Z := 5 * 60 * 1000.

Definition isDeveloperRole (roleName : string) : bool :=
  let lower := JS.toLowerCase roleName in
  JS.some (fun role => JS.includes lower role) DEVELOPER_ROLES.

(** [fetch(url)] is called without options. *)
Definition fetch_headers : list (string * string) := [].

Definition fetchJSON (e : env) (url : string) : M payload :=
  ' (http_status, statusText, parsed) <- fetch e url fetch_headers ;;
  if negb (ok http_status)
  then throw (Error ("HTTP " ++ NilEmpty.string_of_uint (N.to_uint http_status)
                       ++ ": " ++ statusText))
  else parse parsed.

Fixpoint for_groups (e : env) (groups : list entry) (acc : Z * Z) : M (Z * Z) :=
  match groups with
  | [] => ret acc
  | groupData :: rest =>
      r <- read (role groupData) "name" ;;
      roleName <- read (role_name r) "toLowerCase" ;;
      if negb (isDeveloperRole roleName) then for_groups e rest acc
      else
        g <- read (group groupData) "id" ;;
        let groupId := group_id g in
        acc' <- (try
                   (groupGamesData <- fetchJSON e (groupGamesUrl groupId) ;;
                    let groupGames := JS.or_else (payload_data groupGamesData) [] in
                    ret (for_games groupGames acc))
                 catch (fun err => ret acc)) ;;
        for_groups e rest acc'
  end.

(** The outer [try] block; it sends the success body without calling
    [status]. *)
Definition aggregate (e : env) (userId cacheKey : string) (res : response) : M response :=
  ' (personalVisits, personalGameCount) <-
      (try
         (userGamesData <- fetchJSON e (userGamesUrl userId) ;;
          let userGames := JS.or_else (payload_data userGamesData) [] in
          ret (for_games userGames (0, 0)))
       catch (fun err => ret (0, 0))) ;;
  groups <-
      (try
         (groupsData <- fetchJSON e (userGroupsUrl userId) ;;
          ret (JS.or_else (payload_data groupsData) []))
       catch (fun err => ret [])) ;;
  ' (groupVisits, groupGameCount) <- for_groups e groups (0, 0) ;;
  let totalVisits := personalVisits + groupVisits in
  let totalGames := personalGameCount + groupGameCount in
  let result :=
    {| success := true;
       totalVisits := totalVisits;
       the_breakdown :=
         {| personalVisits := personalVisits;
            groupVisits := groupVisits;
            totalGames := totalGames;
            personalGames := personalGameCount;
            groupGames := groupGameCount |};
       note := advisory;
       timestamp := now_result e |} in
  cache_set cacheKey {| data := result; storedAt := now_store e |} ;;
  size <- cache_size ;;
  (if 100 <? size
   then
     firstKey <- cache_first_key ;;
     match firstKey with
     | Some k => cache_delete k
     | None => ret tt
     end
   else ret tt) ;;
  ret (json (SuccessBody result) res).

Definition handler (e : env) (req : request) (w : world) : response * world :=
  let res := setHeader "Access-Control-Allow-Origin" "*" res0 in
  let res := setHeader "Access-Control-Allow-Methods" "GET, OPTIONS" res in
  let res := setHeader "Access-Control-Allow-Headers" "Content-Type" res in
  if String.eqb (method req) "OPTIONS" then (end_ (status 200 res), w)
  else
    let missing :=
      (json (ErrorBody "Missing userId parameter" (Some "GET /api/get-visits?userId=123456"))
            (status 400 res), w) in
    match query_userId req with
    | None => missing
    | Some userId =>
        if String.eqb userId "" then missing
        else if negb (JS.test_digits userId)
        then (json (ErrorBody "Invalid userId - must be numeric" None) (status 400 res), w)
        else
          let cacheKey := "visits_" ++ userId in
          let run :=
            match aggregate e userId cacheKey res w with
            | (inr sent_res, w') => (sent_res, w')
            | (inl error, w') =>
                (json (FailureBody "Failed to fetch visit data" (message_of error) userId)
                      (status 500 res), w')
            end in
          match Map.get cacheKey (cache w) with
          | Some cached =>
              if now_lookup e - storedAt cached <? CACHE_DURATION
              then (json (SuccessBody (data cached)) res, w)
              else run
          | None => run
          end
    end.

End GetVisits.

(** ** The two files as one family *)

Inductive variant := VisitsJs | GetVisitsJs.

Definition handler_of (v : variant) : env -> request -> world -> response * world :=
  match v with
  | VisitsJs => Visits.handler
  | GetVisitsJs => GetVisits.handler
  end.

Definition isDeveloperRole_of (v : variant) : string -> bool :=
  match v with
  | VisitsJs => Visits.isDeveloperRole
  | GetVisitsJs => GetVisits.isDeveloperRole
  end.

Definition headers_of (v : variant) : list (string * string) :=
  match v with
  | VisitsJs => Visits.fetch_headers
  | GetVisitsJs => GetVisits.fetch_headers
  end.

(** What the upstream answers to the [fetch] of variant [v] at [url]. *)
Definition answer (v : variant) (e : env) (url : string) : fetch_outcome :=
  upstream e url (headers_of v).

(** ** Notions used in the statements *)

(** [pat] occurs in [s]. *)
Definition occurs_in (pat s : string) : Prop :=
  exists pre post : string, s = pre ++ pat ++ post.

Definition decimal_digits : list ascii :=
  [ "0"; "1"; "2"; "3"; "4"; "5"; "6"; "7"; "8"; "9" ]%char.

(** [s] matches [^\d+$]: it is not empty and all its characters are decimal
    digits. *)
Definition numeric (s : string) : Prop :=
  s <> "" /\ forall c, In c (list_ascii_of_string s) -> In c decimal_digits.

(** ** The cache of a running process *)

(** The cache after the write of lines 150-160: the entry is set, and when
    more than 100 keys are held the first key is deleted. *)
Definition store (k : string) (v : cached) (c : Map.t cached) : Map.t cached :=
  let c' := Map.set k v c in
  if 100 <? Map.size c'
  then match Map.first_key c' with
       | Some first => Map.delete first c'
       | None => c'
       end
  else c'.

(** What holds of the cache of a running process: no key twice, and at most
    100 keys. *)
Definition bounded (c : Map.t cached) : Prop :=
  NoDup (Map.keys c) /\ Map.size c <= 100.

(** The keys of the cache are made of validated user ids. *)
Definition keys_valid (c : Map.t cached) : Prop :=
  forall k, In k (Map.keys c) -> exists userId, k = "visits_" ++ userId /\ numeric userId.

(** The process since its start: the cache is empty at first, and the
    requests of the history are served one after the other, each in its own
    surroundings. *)
Definition started : world := {| cache := Map.empty; fetched := [] |}.

Definition serve (v : variant) (history : list (env * request)) : world :=
  fold_left (fun w step => snd (handler_of v (fst step) (snd step) w)) history started.

(** ** The aggregation in closed form

    Pure functions that say what a run fetches and sums, with no monad.
    They are read off the handler, and the handler is proved below to
    compute them; the statements of the properties use them to name the
    listings and the sums. *)

(** A guarded fetch has failed when [fetch] rejects, when the status is not
    a success, or when the body does not parse. *)
Definition fails (o : fetch_outcome) : bool :=
  match o with
  | Rejected _ => true
  | Responded st _ (inl _) => true
  | Responded st _ (inr _) => negb (ok st)
  end.

(** The array that a guarded fetch leaves to the loop after it: [data || []]
    of the parsed body, and no element when the fetch has failed. *)
Definition listing (o : fetch_outcome) : list entry :=
  match o with
  | Rejected _ => []
  | Responded st _ (inl _) => []
  | Responded st _ (inr p) => if ok st then JS.or_else (payload_data p) [] else []
  end.

(** The sum of the visit counters that the entries carry. *)
Definition visits_in (games : list entry) : Z :=
  fold_right (fun game s => match placeVisits game with Some n => n + s | None => s end) 0 games.

Definition games_in (games : list entry) : Z := Z.of_nat (List.length games).

(** A membership whose role name is classified as a developer role. *)
Definition developer_tier (v : variant) (m : entry) : bool :=
  match role m with
  | Some r =>
      match role_name r with
      | Some roleName => isDeveloperRole_of v roleName
      | None => false
      end
  | None => false
  end.

(** A membership the loop can process: it has a role with a name and, when
    the role is a developer role, a group. *)
Definition well_formed (v : variant) (m : entry) : bool :=
  match role m with
  | Some r =>
      match role_name r with
      | Some roleName =>
          if isDeveloperRole_of v roleName
          then match group m with Some _ => true | None => false end
          else true
      | None => false
      end
  | None => false
  end.

Definition groupId_of (m : entry) : option Z :=
  match group m with
  | Some g => group_id g
  | None => None
  end.

#[global] Arguments developer_tier v !m /.
#[global] Arguments well_formed v !m /.
#[global] Arguments groupId_of !m /.

(** The group ids of the developer-tier memberships, in order. *)
Definition developer_groups (v : variant) (groups : list entry) : list (option Z) :=
  map groupId_of (filter (developer_tier v) groups).

(** The course of the membership loop: the group ids whose games it
    fetches, and the error that ends it early, if any. *)
Fixpoint plan (v : variant) (groups : list entry) : list (option Z) * option exn :=
  match groups with
  | [] => ([], None)
  | groupData :: rest =>
      match role groupData with
      | None => ([], Some (undefined_read "name"))
      | Some r =>
          match role_name r with
          | None => ([], Some (undefined_read "toLowerCase"))
          | Some roleName =>
              if isDeveloperRole_of v roleName
              then match group groupData with
                   | None => ([], Some (undefined_read "id"))
                   | Some g => (group_id g :: fst (plan v rest), snd (plan v rest))
                   end
              else plan v rest
          end
      end
  end.

Definition pushes (urls : list string) (w : world) : world :=
  {| cache := cache w; fetched := (fetched w ++ urls)%list |}.

(** The success body made of the two pairs of sums. *)
Definition summary (personal grouped : Z * Z) (stamp : Z) : result :=
  {| success := true;
     totalVisits := fst personal + fst grouped;
     the_breakdown :=
       {| personalVisits := fst personal;
          groupVisits := fst grouped;
          totalGames := snd personal + snd grouped;
          personalGames := snd personal;
          groupGames := snd grouped |};
     note := advisory;
     timestamp := stamp |}.

Section ClosedForm.
Variables (v : variant) (e : env).

(** The games listed for the user, and the memberships of the user. *)
Definition personal_listing (userId : string) : list entry :=
  listing (answer v e (userGamesUrl userId)).

Definition memberships (userId : string) : list entry :=
  listing (answer v e (userGroupsUrl userId)).

Definition group_listing (groupId : option Z) : list entry :=
  listing (answer v e (groupGamesUrl groupId)).

Definition group_step (acc : Z * Z) (groupId : option Z) : Z * Z :=
  for_games (group_listing groupId) acc.

(** The sums over the listings of the groups [ids]. *)
Definition group_visits (ids : list (option Z)) : Z :=
  fold_right (fun g s => visits_in (group_listing g) + s) 0 ids.

Definition group_games (ids : list (option Z)) : Z :=
  fold_right (fun g s => games_in (group_listing g) + s) 0 ids.
End ClosedForm.

(** The membership loop follows its [plan]. *)
Definition loop_outcome (v : variant) (e : env) (groups : list entry) (acc : Z * Z) (w : world)
  : (exn + Z * Z) * world :=
  (match snd (plan v groups) with
   | Some err => inl err
   | None => inr (fold_left (group_step v e) (fst (plan v groups)) acc)
   end,
   pushes (map groupGamesUrl (fst (plan v groups))) w).

(** ** The handler, case by case *)

(** The response object once the CORS headers are set. *)
Definition cors : response :=
  setHeader "Access-Control-Allow-Headers" "Content-Type"
    (setHeader "Access-Control-Allow-Methods" "GET, OPTIONS"
       (setHeader "Access-Control-Allow-Origin" "*" res0)).

(** The entry that answers a request for [userId] from the cache, if any:
    one stored less than 300,000 ms before the cache check. *)
Definition cache_hit (e : env) (userId : string) (w : world) : option cached :=
  match Map.get ("visits_" ++ userId) (cache w) with
  | Some c => if now_lookup e - storedAt c <? 300000 then Some c else None
  | None => None
  end.

(** The result of an aggregation run that reaches its end. *)
Definition aggregated (v : variant) (e : env) (userId : string) : result :=
  let ids := fst (plan v (memberships v e userId)) in
  let games := personal_listing v e userId in
  summary (visits_in games, games_in games)
          (group_visits v e ids, group_games v e ids)
          (now_result e).

(** The URLs of an aggregation run, in the order of the calls. *)
Definition calls (v : variant) (e : env) (userId : string) : list string :=
  userGamesUrl userId :: userGroupsUrl userId ::
  map groupGamesUrl (fst (plan v (memberships v e userId))).

(** An aggregation run: the response and the world after it. *)
Definition aggregation (v : variant) (e : env) (userId : string) (w : world)
  : response * world :=
  match snd (plan v (memberships v e userId)) with
  | Some err =>
      (json (FailureBody "Failed to fetch visit data" (message_of err) userId)
            (status 500 cors),
       pushes (calls v e userId) w)
  | None =>
      (json (SuccessBody (aggregated v e userId)) (status 200 cors),
       {| cache := store ("visits_" ++ userId)
                         {| data := aggregated v e userId; storedAt := now_store e |}
                         (cache w);
          fetched := (fetched w ++ calls v e userId)%list |})
  end.

(** The [usage] property of the 400 body for a missing [userId]. *)
Definition usage_hint : string := "GET /api/get-visits?userId=123456".

(** A request that asks for the visits of [userId]: it is not a preflight
    and its [userId] parameter passes the validation. *)
Definition asks_for (req : request) (userId : string) : Prop :=
  method req <> "OPTIONS" /\ query_userId req = Some userId /\ numeric userId.

(** The four ways in which the handler answers. *)
Inductive handled (v : variant) (e : env) (req : request) (w : world)
  : response * world -> Prop :=
| Preflight :
    method req = "OPTIONS" ->
    handled v e req w (end_ (status 200 cors), w)
| Refused (error : string) (usage : option string) :
    method req <> "OPTIONS" ->
    (forall userId, query_userId req = Some userId -> ~ numeric userId) ->
    handled v e req w (json (ErrorBody error usage) (status 400 cors), w)
| FromCache (userId : string) (c : cached) :
    asks_for req userId ->
    cache_hit e userId w = Some c ->
    handled v e req w (json (SuccessBody (data c)) (status 200 cors), w)
| Aggregated (userId : string) :
    asks_for req userId ->
    cache_hit e userId w = None ->
    handled v e req w (aggregation v e userId w).

(** [e'] is [e] at the same instants, with the call at [url] failing. *)
Definition fails_only_at (v : variant) (url : string) (e e' : env) : Prop :=
  fails (answer v e' url) = true /\
  (forall other, other <> url -> answer v e' other = answer v e other) /\
  now_lookup e' = now_lookup e /\
  now_result e' = now_result e /\
  now_store e' = now_store e.

(** ** The functions of the two files, by variant *)

Definition fetchJSON_of (v : variant) : env -> string -> M payload :=
  match v with
  | VisitsJs => Visits.fetchJSON
  | GetVisitsJs => GetVisits.fetchJSON
  end.

Definition for_groups_of (v : variant) : env -> list entry -> Z * Z -> M (Z * Z) :=
  match v with
  | VisitsJs => Visits.for_groups
  | GetVisitsJs => GetVisits.for_groups
  end.

(** The three CORS headers, in the order in which they are set. *)
Definition cors_headers : list (string * string) :=
  [ ("Access-Control-Allow-Origin", "*");
    ("Access-Control-Allow-Methods", "GET, OPTIONS");
    ("Access-Control-Allow-Headers", "Content-Type") ].

(** A success body whose totals are the sums of its parts, with the fixed
    flag and note and with counts that are not negative. *)
Definition consistent (r : result) : Prop :=
  success r = true /\
  note r = advisory /\
  totalVisits r = personalVisits (the_breakdown r) + groupVisits (the_breakdown r) /\
  totalGames (the_breakdown r) = personalGames (the_breakdown r) + groupGames (the_breakdown r) /\
  0 <= personalGames (the_breakdown r) /\
  0 <= groupGames (the_breakdown r).

(** The counters of a run add up exactly in double precision, in any
    order: none is negative and their total is below 2^53. *)
Definition exact_in_doubles (v : variant) (e : env) (userId : string) : Prop :=
  (forall url game n,
     In game (listing (answer v e url)) -> placeVisits game = Some n -> 0 <= n) /\
  visits_in (personal_listing v e userId)
  + group_visits v e (developer_groups v (memberships v e userId)) < 2 ^ 53.

(** A statement about both files. *)
Definition both_files (P : variant -> Prop) : Prop := P VisitsJs /\ P GetVisitsJs.

(** The cache holds consistent results only. *)
Definition cache_sound (c : Map.t cached) : Prop :=
  Forall (fun kv => consistent (data (snd kv))) c.

(** ** A concrete scenario

    User 42 owns three games, one of them without a visit counter, and is
    a co-owner of group 7, a moderator of group 8 and a lead scripter of
    group 9, whose games cannot be fetched. *)

Module Scenario.

Definition game (n : option Z) : entry :=
  {| placeVisits := n; role := None; group := None |}.

Definition member (roleName : string) (groupId : Z) : entry :=
  {| placeVisits := None;
     role := Some {| role_name := Some roleName |};
     group := Some {| group_id := Some groupId; group_name := Some "a group" |} |}.

Definition found (entries : list entry) : fetch_outcome :=
  Responded 200 "OK" (inr {| payload_data := Some entries |}).

Definition roblox (url : string) (hdrs : list (string * string)) : fetch_outcome :=
  if String.eqb url (userGamesUrl "42") then found [game (Some 5); game None; game (Some 7)]
  else if String.eqb url (userGroupsUrl "42")
  then found [member "Co-Owner" 7; member "Moderator" 8; member "LEAD SCRIPTER" 9]
  else if String.eqb url (groupGamesUrl (Some 7)) then found [game (Some 100); game None]
  else Responded 404 "Not Found" (inl "Unexpected end of JSON input").

Definition at_noon : env :=
  {| upstream := roblox; now_lookup := 1000; now_result := 2000; now_store := 3000 |}.

(** Four minutes and eight minutes after the entry was stored. *)
Definition soon_after : env :=
  {| upstream := roblox; now_lookup := 243000; now_result := 244000; now_store := 245000 |}.

Definition much_later : env :=
  {| upstream := roblox; now_lookup := 483000; now_result := 484000; now_store := 485000 |}.

Definition cold : world := {| cache := Map.empty; fetched := [] |}.

Definition get (userId : string) : request :=
  {| method := "GET"; query_userId := Some userId |}.

(** A preflight that carries a [userId] which is not a number. *)
Definition preflight : request :=
  {| method := "OPTIONS"; query_userId := Some "abc" |}.

(** The world after the first request for user 42. *)
Definition warm : world := snd (Visits.handler at_noon (get "42") cold).

(** What that first request is answered. *)
Definition first_answer : result :=
  {| success := true;
     totalVisits := 112;
     the_breakdown :=
       {| personalVisits := 12; groupVisits := 100;
          totalGames := 5; personalGames := 3; groupGames := 2 |};
     note := advisory;
     timestamp := 2000 |}.

(** The same upstream with one call failing. *)
Definition failing_at (url : string) : env :=
  {| upstream := fun u hdrs =>
       if String.eqb u url then Rejected "fetch failed" else roblox u hdrs;
     now_lookup := 1000; now_result := 2000; now_store := 3000 |}.

(** An upstream whose memberships listing holds a membership without a
    role. *)
Definition malformed : env :=
  {| upstream := fun u hdrs =>
       if String.eqb u (userGroupsUrl "42")
       then found [member "Owner" 7; game None; member "Builder" 9]
       else roblox u hdrs;
     now_lookup := 1000; now_result := 2000; now_store := 3000 |}.

(** The same upstream with every listing in the reverse order. *)
Definition reversed : env :=
  {| upstream := fun u hdrs =>
       match roblox u hdrs with
       | Responded st txt (inr p) =>
           Responded st txt (inr {| payload_data := option_map (@rev entry) (payload_data p) |})
       | o => o
       end;
     now_lookup := 1000; now_result := 2000; now_store := 3000 |}.

(** An upstream that turns away a [fetch] that names no [User-Agent]. *)
Definition picky : env :=
  {| upstream := fun u hdrs =>
       match hdrs with
       | [] => Responded 403 "Forbidden" (inl "Unexpected token")
       | _ :: _ => roblox u hdrs
       end;
     now_lookup := 1000; now_result := 2000; now_store := 3000 |}.

(** A preflight for user 42. *)
Definition preflight_42 : request :=
  {| method := "OPTIONS"; query_userId := Some "42" |}.

(** What a run that finds nothing answers. *)
Definition nothing_found : result :=
  {| success := true;
     totalVisits := 0;
     the_breakdown :=
       {| personalVisits := 0; groupVisits := 0;
          totalGames := 0; personalGames := 0; groupGames := 0 |};
     note := advisory;
     timestamp := 2000 |}.

(** The users 100 to 199 ask one after the other. *)
Definition hundred_users : list (env * request) :=
  map (fun n => (at_noon, get (JS.show_number (Z.of_nat n)))) (seq 100 100).

End Scenario.

(** ** Strings *)

Section Strings.

Lemma startsWith_spec s pat :
  JS.startsWith s pat = true <-> exists post, s = pat ++ post.
Proof.
  revert s. induction pat as [|p pat IH]; intros s; simpl.
  - split; [intros _; now exists s | reflexivity].
  - destruct s as [|c s].
    + split; [discriminate | intros [post H]; discriminate].
    + rewrite andb_true_iff, Ascii.eqb_eq, IH. split.
      * intros [-> [post ->]]. now exists post.
      * intros [post H]. injection H as -> ->. split; [reflexivity | now exists post].
Qed.

Lemma includes_spec s pat :
  JS.includes s pat = true <-> occurs_in pat s.
Proof.
  unfold occurs_in. induction s as [|c s IH]; simpl.
  - rewrite orb_false_r, startsWith_spec. split.
    + intros [post H]. now exists "", post.
    + intros [[|a pre] [post H]]; [now exists post | discriminate].
  - rewrite orb_true_iff, startsWith_spec, IH. split.
    + intros [[post H] | [pre [post H]]].
      * now exists "", post.
      * exists (String c pre), post. simpl. now rewrite H.
    + intros [[|a pre] [post H]].
      * left. now exists post.
      * right. simpl in H. injection H as _ H. now exists pre, post.
Qed.

Lemma is_digit_spec c : JS.is_digit c = true <-> In c decimal_digits.
Proof.
  split.
  - destruct c as [[] [] [] [] [] [] [] []]; cbn; intros H;
      try discriminate H; tauto.
  - intros H. cbn in H.
    repeat (destruct H as [<- | H]; [reflexivity|]). destruct H.
Qed.

Lemma all_digits_spec s :
  JS.all_digits s = true <-> forall c, In c (list_ascii_of_string s) -> In c decimal_digits.
Proof.
  induction s as [|a s IH]; cbn [JS.all_digits list_ascii_of_string].
  - split; [intros _ c [] | reflexivity].
  - rewrite andb_true_iff, IH, is_digit_spec. split.
    + intros [Ha Hs] c Hc. destruct Hc as [<- | Hc]; [exact Ha | now apply Hs].
    + intros H. split; [apply H; now left | intros c Hc; apply H; now right].
Qed.

Lemma test_digits_spec s : JS.test_digits s = true <-> numeric s.
Proof.
  unfold numeric. destruct s as [|a s].
  - simpl. split; [discriminate | intros [H _]; now elim H].
  - unfold JS.test_digits. rewrite all_digits_spec. split.
    + intros H. split; [discriminate | exact H].
    + intros [_ H]. exact H.
Qed.

Lemma test_digits_nonempty s : JS.test_digits s = true -> String.eqb s "" = false.
Proof. destruct s; [discriminate | reflexivity]. Qed.

End Strings.

Lemma isDeveloperRole_spec v roleName :
  isDeveloperRole_of v roleName = true <->
  exists word, In word Visits.DEVELOPER_ROLES /\ occurs_in word (JS.toLowerCase roleName).
Proof.
  assert (E : isDeveloperRole_of v roleName =
              existsb (fun word => JS.includes (JS.toLowerCase roleName) word)
                      Visits.DEVELOPER_ROLES) by (destruct v; reflexivity).
  rewrite E, existsb_exists. split; intros (word & Hin & H); exists word;
    (split; [exact Hin | now apply includes_spec]).
Qed.

(** ** Facts about the [Map] and the cache *)

Section MapFacts.
Context {V : Type}.
Implicit Types (m : Map.t V) (k : string) (v : V).

Lemma get_None_iff k m : Map.get k m = None <-> ~ In k (Map.keys m).
Proof.
  induction m as [|[k' v'] m IH]; simpl.
  - tauto.
  - destruct (String.eqb_spec k' k) as [->|Hne].
    + split; [discriminate | intros H; elim H; now left].
    + rewrite IH. tauto.
Qed.

Lemma get_Some_in k v m : Map.get k m = Some v -> In k (Map.keys m).
Proof.
  intros H. destruct (in_dec string_dec k (Map.keys m)) as [Hin|Hout]; [exact Hin|].
  apply get_None_iff in Hout. congruence.
Qed.

Lemma set_absent k v m : ~ In k (Map.keys m) -> Map.set k v m = (m ++ [(k, v)])%list.
Proof.
  induction m as [|[k' v'] m IH]; simpl; intros H.
  - reflexivity.
  - destruct (String.eqb_spec k' k) as [->|Hne].
    + elim H. now left.
    + rewrite IH; [reflexivity | tauto].
Qed.

Lemma keys_set_present k v m : In k (Map.keys m) -> Map.keys (Map.set k v m) = Map.keys m.
Proof.
  induction m as [|[k' v'] m IH]; simpl; intros H.
  - destruct H.
  - destruct (String.eqb_spec k' k) as [->|Hne]; simpl.
    + reflexivity.
    + rewrite IH; [reflexivity | tauto].
Qed.

Lemma get_set_same k v m : Map.get k (Map.set k v m) = Some v.
Proof.
  induction m as [|[k' v'] m IH]; simpl.
  - now rewrite String.eqb_refl.
  - destruct (String.eqb_spec k' k) as [->|Hne]; simpl.
    + now rewrite String.eqb_refl.
    + destruct (String.eqb_spec k' k); [contradiction | exact IH].
Qed.

Lemma size_app_one m k v : Map.size (m ++ [(k, v)])%list = Map.size m + 1.
Proof. unfold Map.size. rewrite length_app. simpl. lia. Qed.

Lemma size_keys m : Map.size m = Z.of_nat (List.length (Map.keys m)).
Proof. unfold Map.size, Map.keys. now rewrite length_map. Qed.

Lemma keys_app_one m k v : Map.keys (m ++ [(k, v)])%list = (Map.keys m ++ [k])%list.
Proof. unfold Map.keys. now rewrite map_app. Qed.
End MapFacts.

Section Store.
Implicit Types (c : Map.t cached) (k : string) (v : cached).

Lemma store_overwrite k v c :
  Map.size c <= 100 -> In k (Map.keys c) -> store k v c = Map.set k v c.
Proof.
  intros Hsz Hin. unfold store.
  rewrite (size_keys (Map.set k v c)), keys_set_present, <- size_keys by exact Hin.
  destruct (Z.ltb_spec 100 (Map.size c)); [lia | reflexivity].
Qed.

Lemma store_room k v c :
  Map.size c < 100 -> ~ In k (Map.keys c) -> store k v c = (c ++ [(k, v)])%list.
Proof.
  intros Hsz Hout. unfold store. rewrite set_absent by exact Hout.
  rewrite size_app_one. destruct (Z.ltb_spec 100 (Map.size c + 1)); [lia | reflexivity].
Qed.

Lemma store_full k v c first old rest :
  c = (first, old) :: rest -> Map.size c = 100 -> ~ In k (Map.keys c) ->
  store k v c = (rest ++ [(k, v)])%list.
Proof.
  intros -> Hsz Hout. unfold store. rewrite set_absent by exact Hout.
  rewrite size_app_one, Hsz. simpl. now rewrite String.eqb_refl.
Qed.

Lemma store_bounded k v c : bounded c -> bounded (store k v c).
Proof.
  intros [Hnd Hsz]. destruct (in_dec string_dec k (Map.keys c)) as [Hin|Hout].
  - rewrite store_overwrite by assumption. split.
    + now rewrite keys_set_present.
    + now rewrite size_keys, keys_set_present, <- size_keys.
  - destruct (Z.eq_dec (Map.size c) 100) as [Hfull|Hroom].
    + destruct c as [|[first old] rest]; [discriminate Hfull|].
      rewrite (store_full k v _ first old rest) by auto. split.
      * rewrite keys_app_one. simpl in Hnd, Hout. inversion Hnd; subst.
        apply NoDup_app; [assumption | repeat constructor; intros [] | ].
        intros x Hx [<-|[]]. tauto.
      * rewrite size_app_one. unfold Map.size in *. simpl in Hfull. lia.
    + rewrite store_room by (assumption || lia). split.
      * rewrite keys_app_one.
        apply NoDup_app; [assumption | repeat constructor; intros [] | ].
        intros x Hx [<-|[]]. tauto.
      * rewrite size_app_one. lia.
Qed.
End Store.

(** The keys of the cache are those of users who passed the validation. *)
Lemma visits_key_inj u u' : "visits_" ++ u = "visits_" ++ u' -> u = u'.
Proof. simpl. intros H. now injection H. Qed.

Lemma delete_keys {V} k (m : Map.t V) x :
  In x (Map.keys (Map.delete k m)) -> In x (Map.keys m).
Proof.
  induction m as [|[k' v'] m IH]; simpl; [tauto|].
  destruct (String.eqb k' k); simpl; tauto.
Qed.

Lemma set_keys {V} k v (m : Map.t V) x :
  In x (Map.keys (Map.set k v m)) -> x = k \/ In x (Map.keys m).
Proof.
  induction m as [|[k' v'] m IH]; simpl.
  - intros [<-|[]]. now left.
  - destruct (String.eqb_spec k' k) as [->|Hne]; simpl.
    + intros [<-|H]; [now left | right; now right].
    + intros [<-|H]; [right; now left | destruct (IH H); [now left | right; now right]].
Qed.

Lemma store_keys k v c x :
  In x (Map.keys (store k v c)) -> x = k \/ In x (Map.keys c).
Proof.
  unfold store. destruct (100 <? _).
  - destruct (Map.first_key _); intros H; [apply delete_keys in H|]; now apply set_keys in H.
  - apply set_keys.
Qed.

(** ** Facts about the closed form *)

Lemma fails_listing o : fails o = true -> listing o = [].
Proof.
  destruct o as [m|st txt [m|p]]; simpl; try reflexivity.
  intros H. apply negb_true_iff in H. now rewrite H.
Qed.

Lemma for_games_sums games a b :
  for_games games (a, b) = (a + visits_in games, b + games_in games).
Proof.
  unfold for_games, games_in. revert a b.
  induction games as [|game games IH]; intros a b; simpl List.length; simpl fold_left; simpl visits_in.
  - f_equal; lia.
  - rewrite IH. unfold JS.or_zero, JS.or_else.
    destruct (placeVisits game); f_equal; lia.
Qed.

Lemma group_fold_sums v e ids a b :
  fold_left (group_step v e) ids (a, b) = (a + group_visits v e ids, b + group_games v e ids).
Proof.
  revert a b. induction ids as [|g ids IH]; intros a b; simpl.
  - f_equal; lia.
  - unfold group_step at 2. rewrite for_games_sums, IH. f_equal; lia.
Qed.

Lemma plan_well_formed v groups :
  forallb (well_formed v) groups = true -> plan v groups = (developer_groups v groups, None).
Proof.
  unfold developer_groups.
  induction groups as [|m groups IH]; [reflexivity|].
  destruct m as [pv [[[n|]]|] gr]; simpl; try discriminate.
  destruct (isDeveloperRole_of v n); simpl.
  - destruct gr as [g|]; simpl; [|discriminate].
    intros H. now rewrite (IH H).
  - exact IH.
Qed.

Lemma plan_crash_iff v groups :
  snd (plan v groups) = None <-> forallb (well_formed v) groups = true.
Proof.
  induction groups as [|m groups IH]; [simpl; tauto|].
  destruct m as [pv [[[n|]]|] gr]; simpl; try (split; discriminate).
  destruct (isDeveloperRole_of v n); simpl.
  - destruct gr as [g|]; simpl; [exact IH | split; discriminate].
  - exact IH.
Qed.

(** The loop fetches for developer-tier memberships only, in their order,
    and stops at the first membership it cannot process. *)
Lemma plan_reached v groups :
  exists reached later,
    filter (developer_tier v) groups = (reached ++ later)%list /\
    fst (plan v groups) = map groupId_of reached /\
    (snd (plan v groups) = None -> later = []).
Proof.
  induction groups as [|m groups (reached & later & Hsplit & Hids & Hend)].
  - exists [], []. repeat split.
  - destruct m as [pv [[[n|]]|] gr]; simpl;
      try (exists [], (filter (developer_tier v) groups); repeat split; discriminate).
    destruct (isDeveloperRole_of v n); simpl.
    + destruct gr as [g|]; simpl.
      * exists ({| placeVisits := pv; role := Some {| role_name := Some n |};
                   group := Some g |} :: reached), later.
        repeat split; [now rewrite Hsplit | now rewrite Hids | exact Hend].
      * eexists [], _. repeat split. discriminate.
    + now exists reached, later.
Qed.

(** A run that ends well has processed every membership, so it has fetched
    for every developer-tier membership. *)
Lemma plan_complete v groups :
  snd (plan v groups) = None -> fst (plan v groups) = developer_groups v groups.
Proof.
  intros H. apply plan_crash_iff in H. now rewrite plan_well_formed.
Qed.

(** The three kinds of URL never coincide. *)
Lemma userGames_not_userGroups u u' : userGamesUrl u <> userGroupsUrl u'.
Proof. unfold userGamesUrl, userGroupsUrl. simpl. discriminate. Qed.

Lemma userGames_not_groupGames u g : userGamesUrl u <> groupGamesUrl g.
Proof. unfold userGamesUrl, groupGamesUrl. simpl. discriminate. Qed.

Lemma userGroups_not_groupGames u g : userGroupsUrl u <> groupGamesUrl g.
Proof. unfold userGroupsUrl, groupGamesUrl. simpl. discriminate. Qed.

Lemma groupGames_urls_exclude url ids :
  (forall g, url <> groupGamesUrl g) ->
  count_occ string_dec (map groupGamesUrl ids) url = 0%nat.
Proof.
  intros Hne. apply count_occ_not_In. intros Hin.
  apply in_map_iff in Hin. destruct Hin as (g & Hg & _). now apply (Hne g).
Qed.

(** The closed form depends on the upstream through its answers alone. *)
Lemma plan_variants groups : plan VisitsJs groups = plan GetVisitsJs groups.
Proof.
  induction groups as [|m groups IH]; [reflexivity|].
  destruct m as [pv [[[n|]]|] gr]; simpl; try reflexivity.
  change (GetVisits.isDeveloperRole n) with (Visits.isDeveloperRole n).
  destruct (Visits.isDeveloperRole n); [|exact IH].
  destruct gr; [now rewrite IH | reflexivity].
Qed.

Lemma group_sums_ext v e v' e' ids :
  (forall g, In g ids -> group_listing v' e' g = group_listing v e g) ->
  group_visits v' e' ids = group_visits v e ids /\
  group_games v' e' ids = group_games v e ids.
Proof.
  induction ids as [|g ids IH]; intros H; simpl; [split; reflexivity|].
  destruct IH as [IHv IHg]; [intros g' Hg'; apply H; now right|].
  rewrite H by now left. now rewrite IHv, IHg.
Qed.

(** The group sums when the call at [url] fails: the groups fetched at
    another URL contribute as before, the others nothing. *)
Lemma group_sums_without v e e' url ids :
  fails (answer v e' url) = true ->
  (forall other, other <> url -> answer v e' other = answer v e other) ->
  let others := filter (fun g => negb (String.eqb (groupGamesUrl g) url)) ids in
  group_visits v e' ids = group_visits v e others /\
  group_games v e' ids = group_games v e others.
Proof.
  intros Hf Hsame. cbv zeta.
  induction ids as [|g ids [IHv IHg]]; [split; reflexivity|].
  cbn [filter]. unfold group_visits, group_games in *.
  destruct (String.eqb_spec (groupGamesUrl g) url) as [Heq|Hne];
    cbn [negb fold_right]; rewrite IHv, IHg.
  - assert (Hl : group_listing v e' g = [])
      by (unfold group_listing; rewrite Heq; now apply fails_listing).
    rewrite Hl. split; reflexivity.
  - assert (Hl : group_listing v e' g = group_listing v e g)
      by (unfold group_listing; now rewrite (Hsame _ Hne)).
    rewrite Hl. split; reflexivity.
Qed.

(** ** Running the monadic code *)

Lemma bind_value {A B} (c : M A) (k : A -> M B) w a w' :
  c w = (inr a, w') -> bind c k w = k a w'.
Proof. unfold bind. now intros ->. Qed.

Lemma pushes_nil w : pushes [] w = w.
Proof. destruct w. unfold pushes. simpl. now rewrite app_nil_r. Qed.

Lemma pushes_pushes l1 l2 w : pushes l2 (pushes l1 w) = pushes (l1 ++ l2) w.
Proof. unfold pushes. simpl. now rewrite app_assoc. Qed.

(** A guarded fetch never throws: it yields the listing, which is empty
    after a failure, and the call is on record. *)
Ltac guard_script fetchJSON_def :=
  intros ->; unfold fetchJSON_def, try_catch, bind, fetch, parse, throw, ret,
    answer, listing, headers_of, pushes; simpl;
  match goal with
  | |- context [upstream ?e ?url ?h] =>
      destruct (upstream e url h) as [m|st txt [m|p]]; simpl;
      try destruct (ok st); reflexivity
  end.

Lemma Visits_guard {A} (f : list entry -> A) (a0 : A) e url w :
  a0 = f [] ->
  try_catch
    (bind (Visits.fetchJSON e url)
          (fun body => ret (f (JS.or_else (payload_data body) []))))
    (fun _ => ret a0) w
  = (inr (f (listing (answer VisitsJs e url))), pushes [url] w).
Proof. guard_script Visits.fetchJSON. Qed.

Lemma GetVisits_guard {A} (f : list entry -> A) (a0 : A) e url w :
  a0 = f [] ->
  try_catch
    (bind (GetVisits.fetchJSON e url)
          (fun body => ret (f (JS.or_else (payload_data body) []))))
    (fun _ => ret a0) w
  = (inr (f (listing (answer GetVisitsJs e url))), pushes [url] w).
Proof. guard_script GetVisits.fetchJSON. Qed.

Ltac loop_script guard :=
  intros e groups; induction groups as [|m groups IH]; intros acc w;
  [ unfold loop_outcome; simpl; now rewrite pushes_nil | ];
  destruct m as [pv [[[n|]]|] gr];
  unfold loop_outcome; simpl;
  try (unfold bind, throw; simpl; now rewrite pushes_nil);
  unfold bind at 1 2; simpl;
  match goal with
  | |- context [negb ?b] => destruct b eqn:Hdev
  end; simpl;
  [ destruct gr as [g|]; simpl;
    [ unfold bind at 1; simpl;
      erewrite bind_value
        by (apply (guard _ (fun l => for_games l acc)); reflexivity);
      rewrite IH; unfold loop_outcome; rewrite pushes_pushes; reflexivity
    | unfold bind, throw; simpl; now rewrite pushes_nil ]
  | apply IH ].

Lemma Visits_loop :
  forall e groups acc w,
    Visits.for_groups e groups acc w = loop_outcome VisitsJs e groups acc w.
Proof. loop_script @Visits_guard. Qed.

Lemma GetVisits_loop :
  forall e groups acc w,
    GetVisits.for_groups e groups acc w = loop_outcome GetVisitsJs e groups acc w.
Proof. loop_script @GetVisits_guard. Qed.

Ltac aggregate_script guard loop :=
  intros e userId cacheKey res w;
  erewrite bind_value
    by (apply (guard _ (fun l => for_games l (0, 0))); reflexivity);
  rewrite for_games_sums; cbv beta iota zeta;
  erewrite bind_value by (apply (guard _ (fun l => l)); reflexivity);
  unfold bind at 1; rewrite loop; unfold loop_outcome;
  fold (memberships VisitsJs e userId); fold (memberships GetVisitsJs e userId);
  rewrite !pushes_pushes;
  match goal with
  | |- context [snd (plan ?v ?g)] => destruct (snd (plan v g)) as [err|]
  end;
  [ reflexivity | ];
  rewrite group_fold_sums; cbv beta iota zeta;
  unfold bind, cache_set, cache_size, cache_first_key, cache_delete, ret, store,
    aggregated, summary, personal_listing, calls;
  simpl;
  match goal with
  | |- context [100 <? ?s] => destruct (100 <? s)
  end; simpl;
  [ match goal with
    | |- context [Map.first_key ?c] => destruct (Map.first_key c)
    end; reflexivity
  | reflexivity ].

Lemma Visits_aggregate :
  forall e userId cacheKey res w,
    Visits.aggregate e userId cacheKey res w =
    match snd (plan VisitsJs (memberships VisitsJs e userId)) with
    | Some err => (inl err, pushes (calls VisitsJs e userId) w)
    | None =>
        (inr (json (SuccessBody (aggregated VisitsJs e userId)) (status 200 res)),
         {| cache := store cacheKey
                       {| data := aggregated VisitsJs e userId; storedAt := now_store e |}
                       (cache w);
            fetched := (fetched w ++ calls VisitsJs e userId)%list |})
    end.
Proof. unfold Visits.aggregate. aggregate_script @Visits_guard Visits_loop. Qed.

Lemma GetVisits_aggregate :
  forall e userId cacheKey res w,
    GetVisits.aggregate e userId cacheKey res w =
    match snd (plan GetVisitsJs (memberships GetVisitsJs e userId)) with
    | Some err => (inl err, pushes (calls GetVisitsJs e userId) w)
    | None =>
        (inr (json (SuccessBody (aggregated GetVisitsJs e userId)) res),
         {| cache := store cacheKey
                       {| data := aggregated GetVisitsJs e userId; storedAt := now_store e |}
                       (cache w);
            fetched := (fetched w ++ calls GetVisitsJs e userId)%list |})
    end.
Proof. unfold GetVisits.aggregate. aggregate_script @GetVisits_guard GetVisits_loop. Qed.

(** ** The handler follows the closed form *)

Lemma handler_options v e req w :
  method req = "OPTIONS" ->
  handler_of v e req w = (end_ (status 200 cors), w).
Proof.
  intros H. destruct v; unfold handler_of, Visits.handler, GetVisits.handler;
    cbv zeta; rewrite H; reflexivity.
Qed.

Lemma handler_missing v e req w :
  method req <> "OPTIONS" ->
  query_userId req = None \/ query_userId req = Some "" ->
  handler_of v e req w =
  (json (ErrorBody "Missing userId parameter" (Some usage_hint)) (status 400 cors), w).
Proof.
  intros Hm Hq. apply String.eqb_neq in Hm.
  destruct v; unfold handler_of, Visits.handler, GetVisits.handler;
    cbv zeta; rewrite Hm; destruct Hq as [-> | ->]; reflexivity.
Qed.

Lemma handler_invalid v e req w userId :
  method req <> "OPTIONS" ->
  query_userId req = Some userId ->
  userId <> "" ->
  JS.test_digits userId = false ->
  handler_of v e req w =
  (json (ErrorBody "Invalid userId - must be numeric" None) (status 400 cors), w).
Proof.
  intros Hm Hq Hne Ht. apply String.eqb_neq in Hm. apply String.eqb_neq in Hne.
  destruct v; unfold handler_of, Visits.handler, GetVisits.handler;
    cbv zeta; rewrite Hm, Hq, Hne, Ht; reflexivity.
Qed.

Lemma handler_hit v e req w userId c :
  method req <> "OPTIONS" ->
  query_userId req = Some userId ->
  JS.test_digits userId = true ->
  cache_hit e userId w = Some c ->
  handler_of v e req w = (json (SuccessBody (data c)) (status 200 cors), w).
Proof.
  intros Hm Hq Ht Hc. apply String.eqb_neq in Hm.
  pose proof (test_digits_nonempty _ Ht) as Hne. unfold cache_hit in Hc.
  destruct v; unfold handler_of, Visits.handler, GetVisits.handler;
    cbv zeta; rewrite Hm, Hq, Hne, Ht; cbn [negb];
    unfold Visits.CACHE_DURATION, GetVisits.CACHE_DURATION;
    change (5 * 60 * 1000) with 300000;
    destruct (Map.get ("visits_" ++ userId) (cache w)) as [c0|]; try discriminate;
    destruct (now_lookup e - storedAt c0 <? 300000); try discriminate;
    injection Hc as ->; reflexivity.
Qed.

Lemma handler_miss v e req w userId :
  method req <> "OPTIONS" ->
  query_userId req = Some userId ->
  JS.test_digits userId = true ->
  cache_hit e userId w = None ->
  handler_of v e req w = aggregation v e userId w.
Proof.
  intros Hm Hq Ht Hc. apply String.eqb_neq in Hm.
  pose proof (test_digits_nonempty _ Ht) as Hne. unfold cache_hit in Hc.
  assert (Hrun :
    match Map.get ("visits_" ++ userId) (cache w) with
    | Some c0 => now_lookup e - storedAt c0 <? 300000
    | None => false
    end = false).
  { destruct (Map.get _ _) as [c0|]; [|reflexivity].
    destruct (_ <? _); [discriminate | reflexivity]. }
  clear Hc.
  destruct v; unfold handler_of, Visits.handler, GetVisits.handler, aggregation;
    cbv zeta; rewrite Hm, Hq, Hne, Ht; cbn [negb];
    unfold Visits.CACHE_DURATION, GetVisits.CACHE_DURATION;
    change (5 * 60 * 1000) with 300000;
    [ rewrite Visits_aggregate | rewrite GetVisits_aggregate ];
    destruct (Map.get ("visits_" ++ userId) (cache w)) as [c0|];
    try rewrite Hrun;
    destruct (snd (plan _ _)); reflexivity.
Qed.

Lemma handler_handled v e req w : handled v e req w (handler_of v e req w).
Proof.
  destruct (string_dec (method req) "OPTIONS") as [Hm|Hm].
  - rewrite handler_options by exact Hm. now constructor.
  - destruct (query_userId req) as [userId|] eqn:Hq.
    + destruct (JS.test_digits userId) eqn:Ht.
      * assert (Hask : asks_for req userId).
        { repeat split; try assumption; now apply test_digits_spec. }
        destruct (cache_hit e userId w) as [c|] eqn:Hc.
        -- rewrite (handler_hit v e req w userId c) by assumption.
           now apply FromCache with userId.
        -- rewrite (handler_miss v e req w userId) by assumption.
           now apply Aggregated.
      * assert (Hno : forall u, Some userId = Some u -> ~ numeric u).
        { intros u [= <-] Hn. apply test_digits_spec in Hn. congruence. }
        destruct (string_dec userId "") as [->|Hne].
        -- rewrite handler_missing by auto.
           apply Refused; [assumption | rewrite Hq; exact Hno].
        -- rewrite (handler_invalid v e req w userId) by assumption.
           apply Refused; [assumption | rewrite Hq; exact Hno].
    + rewrite handler_missing by auto.
      apply Refused; [assumption | rewrite Hq; discriminate].
Qed.

(** A request that asks for [userId] without a fresh cache entry is
    answered by an aggregation run. *)
Lemma handler_run v e req w userId :
  asks_for req userId -> cache_hit e userId w = None ->
  handler_of v e req w = aggregation v e userId w.
Proof.
  intros (Hm & Hq & Hn) Hc. apply handler_miss; try assumption.
  now apply test_digits_spec.
Qed.

Lemma handler_cached v e req w userId c :
  asks_for req userId -> cache_hit e userId w = Some c ->
  handler_of v e req w = (json (SuccessBody (data c)) (status 200 cors), w).
Proof.
  intros (Hm & Hq & Hn) Hc. apply handler_hit with userId; try assumption.
  now apply test_digits_spec.
Qed.

Lemma aggregation_fetched v e userId w :
  fetched (snd (aggregation v e userId w)) = (fetched w ++ calls v e userId)%list.
Proof. unfold aggregation. destruct (snd (plan _ _)); reflexivity. Qed.

Lemma aggregation_success v e userId w res w' r :
  aggregation v e userId w = (res, w') ->
  sent res = Some (SuccessBody r) ->
  snd (plan v (memberships v e userId)) = None /\
  r = aggregated v e userId /\
  statusCode res = 200 /\
  cache w' = store ("visits_" ++ userId)
                   {| data := aggregated v e userId; storedAt := now_store e |} (cache w).
Proof.
  unfold aggregation. destruct (snd (plan _ _)) as [err|].
  - intros [= <- <-]. discriminate.
  - intros [= <- <-] [= <-]. repeat split.
Qed.

Lemma aggregation_failure v e userId w :
  statusCode (fst (aggregation v e userId w)) = 500 ->
  snd (aggregation v e userId w) = pushes (calls v e userId) w.
Proof.
  unfold aggregation. destruct (snd (plan _ _)) as [err|]; [reflexivity | discriminate].
Qed.

Lemma aggregation_status v e userId w :
  statusCode (fst (aggregation v e userId w)) = 200 ->
  snd (plan v (memberships v e userId)) = None.
Proof.
  unfold aggregation. destruct (snd (plan _ _)) as [err|]; [discriminate | reflexivity].
Qed.

Lemma aggregation_ok v e userId w :
  snd (plan v (memberships v e userId)) = None ->
  aggregation v e userId w =
  (json (SuccessBody (aggregated v e userId)) (status 200 cors),
   {| cache := store ("visits_" ++ userId)
                     {| data := aggregated v e userId; storedAt := now_store e |}
                     (cache w);
      fetched := (fetched w ++ calls v e userId)%list |}).
Proof. unfold aggregation. now intros ->. Qed.

Lemma aggregation_variants e userId w :
  (forall url, answer VisitsJs e url = answer GetVisitsJs e url) ->
  aggregation VisitsJs e userId w = aggregation GetVisitsJs e userId w.
Proof.
  intros Hsame.
  assert (Hm : memberships VisitsJs e userId = memberships GetVisitsJs e userId)
    by (unfold memberships; now rewrite Hsame).
  assert (Hp : personal_listing VisitsJs e userId = personal_listing GetVisitsJs e userId)
    by (unfold personal_listing; now rewrite Hsame).
  assert (Hc : calls VisitsJs e userId = calls GetVisitsJs e userId)
    by (unfold calls; now rewrite Hm, plan_variants).
  assert (Ha : aggregated VisitsJs e userId = aggregated GetVisitsJs e userId).
  { unfold aggregated. rewrite Hm, Hp, plan_variants.
    destruct (group_sums_ext GetVisitsJs e VisitsJs e
                (fst (plan GetVisitsJs (memberships GetVisitsJs e userId)))) as [-> ->];
      [|reflexivity].
    intros g _. unfold group_listing. now rewrite Hsame. }
  unfold aggregation. now rewrite Hm, plan_variants, Hc, Ha.
Qed.

(** The lookup of lines 54-59, for a request past the two gates. *)
Lemma cache_lookup_cases v e req w userId c :
  asks_for req userId ->
  Map.get ("visits_" ++ userId) (cache w) = Some c ->
  (now_lookup e - storedAt c < 300000 ->
     statusCode (fst (handler_of v e req w)) = 200 /\
     sent (fst (handler_of v e req w)) = Some (SuccessBody (data c)) /\
     snd (handler_of v e req w) = w) /\
  (300000 <= now_lookup e - storedAt c ->
     cache_hit e userId w = None /\
     exists more,
       fetched (snd (handler_of v e req w)) =
         (fetched w ++ userGamesUrl userId :: userGroupsUrl userId :: more)%list).
Proof.
  intros Hask Hget. split; intros Hage.
  - assert (Hhit : cache_hit e userId w = Some c).
    { unfold cache_hit. rewrite Hget.
      destruct (Z.ltb_spec (now_lookup e - storedAt c) 300000); [reflexivity | lia]. }
    rewrite (handler_cached v e req w userId c Hask Hhit). repeat split.
  - assert (Hmiss : cache_hit e userId w = None).
    { unfold cache_hit. rewrite Hget.
      destruct (Z.ltb_spec (now_lookup e - storedAt c) 300000); [lia | reflexivity]. }
    split; [exact Hmiss|]. eexists.
    rewrite (handler_run v e req w userId Hask Hmiss). apply aggregation_fetched.
Qed.

Lemma stale_stays_stale e e2 userId w w' :
  cache w' = cache w ->
  now_lookup e <= now_lookup e2 ->
  cache_hit e userId w = None ->
  cache_hit e2 userId w' = None.
Proof.
  unfold cache_hit. intros -> Hlater.
  destruct (Map.get _ (cache w)) as [c|]; [|reflexivity].
  destruct (Z.ltb_spec (now_lookup e - storedAt c) 300000); [discriminate|].
  destruct (Z.ltb_spec (now_lookup e2 - storedAt c) 300000); [lia | reflexivity].
Qed.

Lemma handler_keys_valid v e req w :
  keys_valid (cache w) -> keys_valid (cache (snd (handler_of v e req w))).
Proof.
  intros Hw.
  destruct (handler_handled v e req w)
    as [Hopt|error usage _ _|userId c Hask _|userId Hask Hmiss]; try exact Hw.
  unfold aggregation. destruct (snd (plan _ _)); [exact Hw|].
  cbn [snd cache]. intros k Hk. apply store_keys in Hk. destruct Hk as [->|Hk].
  - exists userId. split; [reflexivity | apply Hask].
  - now apply Hw.
Qed.

Lemma serve_keys_valid v history : keys_valid (cache (serve v history)).
Proof.
  unfold serve.
  assert (H0 : keys_valid (cache started)) by (intros k []).
  revert H0. generalize started.
  induction history as [|[e req] history IH]; intros w Hw; simpl; [exact Hw|].
  apply IH. now apply handler_keys_valid.
Qed.

(** What one request does to a cache of at most 100 distinct keys. *)
Lemma cache_step v e req w :
  bounded (cache w) ->
  let before := cache w in
  let after := cache (snd (handler_of v e req w)) in
  bounded after /\
  (after = before \/
   exists userId r,
     asks_for req userId /\
     statusCode (fst (handler_of v e req w)) = 200 /\
     sent (fst (handler_of v e req w)) = Some (SuccessBody r) /\
     let key := "visits_" ++ userId in
     let entry := {| data := r; storedAt := now_store e |} in
     (In key (Map.keys before) ->
        Map.keys after = Map.keys before /\ Map.get key after = Some entry) /\
     (~ In key (Map.keys before) -> Map.size before < 100 ->
        after = (before ++ [(key, entry)])%list) /\
     (~ In key (Map.keys before) -> Map.size before = 100 ->
        exists first old rest,
          before = (first, old) :: rest /\
          after = (rest ++ [(key, entry)])%list /\
          Map.size after = 100)).
Proof.
  intros Hb. cbv zeta.
  destruct (handler_handled v e req w)
    as [Hopt|error usage _ _|userId c Hask _|userId Hask Hmiss];
    try (split; [exact Hb | left; reflexivity]).
  unfold aggregation. destruct (snd (plan v (memberships v e userId))) as [err|].
  { split; [exact Hb | left; reflexivity]. }
  cbn [fst snd cache]. split; [now apply store_bounded|].
  right. exists userId, (aggregated v e userId).
  split; [exact Hask|]. split; [reflexivity|]. split; [reflexivity|].
  cbv zeta. destruct Hb as [Hnd Hsz]. split; [|split].
  - intros Hin. rewrite store_overwrite by assumption.
    split; [now apply keys_set_present | apply get_set_same].
  - intros Hout Hroom. now apply store_room.
  - intros Hout Hfull. destruct (cache w) as [|[first old] rest] eqn:Hc;
      [discriminate Hfull|].
    exists first, old, rest. split; [reflexivity|].
    rewrite (store_full _ _ _ first old rest) by auto.
    split; [reflexivity|]. rewrite size_app_one.
    unfold Map.size in *. cbn [List.length] in Hfull. lia.
Qed.

Lemma serve_bounded v history : bounded (cache (serve v history)).
Proof.
  unfold serve.
  assert (H0 : bounded (cache started)) by (split; [constructor | discriminate]).
  revert H0. generalize started.
  induction history as [|[e req] history IH]; intros w Hw; simpl; [exact Hw|].
  apply IH. exact (proj1 (cache_step v e req w Hw)).
Qed.

(** ** Facts about the scenario *)

Lemma numeric_42 : numeric "42".
Proof. apply test_digits_spec. reflexivity. Defined.

Lemma asks_for_42 : asks_for (Scenario.get "42") "42".
Proof. split; [discriminate | split; [reflexivity | apply numeric_42]]. Defined.

Lemma first_request_runs :
  handler_of VisitsJs Scenario.at_noon (Scenario.get "42") Scenario.cold =
  (json (SuccessBody Scenario.first_answer) (status 200 cors), Scenario.warm).
Proof. reflexivity. Qed.

Lemma fails_only_at_scenario v url :
  fails_only_at v url Scenario.at_noon (Scenario.failing_at url).
Proof.
  split; [|split; [|repeat split]].
  - unfold answer, Scenario.failing_at. simpl. now rewrite String.eqb_refl.
  - intros other Hne. unfold answer, Scenario.failing_at. simpl.
    apply String.eqb_neq in Hne. now rewrite Hne.
Defined.

Lemma both_files_intro (P : variant -> Prop) : (forall v, P v) -> both_files P.
Proof. intros H. split; apply H. Defined.

(** ** The properties of the specification *)

(** C1.  In every success response (HTTP 200) produced by a full
    aggregation run, [totalVisits] is [personalVisits + groupVisits] and
    [totalGames] is [personalGames + groupGames], whatever the upstream
    answers, failures included. *)
Theorem totals_are_sums v e req w userId res w' r :
  asks_for req userId ->
  cache_hit e userId w = None ->
  handler_of v e req w = (res, w') ->
  statusCode res = 200 ->
  sent res = Some (SuccessBody r) ->
  totalVisits r = personalVisits (the_breakdown r) + groupVisits (the_breakdown r) /\
  totalGames (the_breakdown r) = personalGames (the_breakdown r) + groupGames (the_breakdown r).
Proof.
  intros Hask Hmiss Hrun _ Hbody.
  rewrite (handler_run v e req w userId Hask Hmiss) in Hrun.
  destruct (aggregation_success _ _ _ _ _ _ _ Hrun Hbody) as (_ & -> & _).
  split; reflexivity.
Qed.

Lemma totals_are_sums_witness :
  totalVisits Scenario.first_answer =
    personalVisits (the_breakdown Scenario.first_answer) +
    groupVisits (the_breakdown Scenario.first_answer) /\
  totalGames (the_breakdown Scenario.first_answer) =
    personalGames (the_breakdown Scenario.first_answer) +
    groupGames (the_breakdown Scenario.first_answer).
Proof.
  apply (totals_are_sums VisitsJs Scenario.at_noon (Scenario.get "42") Scenario.cold "42"
           (json (SuccessBody Scenario.first_answer) (status 200 cors)) Scenario.warm);
    [exact asks_for_42 | reflexivity | reflexivity | reflexivity | reflexivity].
Defined.

(** C2.  Make one upstream call of a run fail, all else being equal.  The
    failure never brings a 500 about: the run is answered 500 only if it was
    so without the failure.  Over memberships that the loop can process the
    run answers 200, with the failure as without.  When the failing call is
    the personal-games fetch, the personal sums are zero and the group sums are unchanged; when it is the
    memberships fetch, the group sums are zero, no group is fetched and the
    personal sums are unchanged; when it is the games fetch of a group, the
    personal sums are unchanged and the group sums are those of the other
    developer-tier groups, each contributing as before. *)
Theorem single_failure_is_isolated v e e' req w userId url :
  asks_for req userId ->
  cache_hit e userId w = None ->
  fails_only_at v url e e' ->
  (statusCode (fst (handler_of v e' req w)) = 500 ->
   statusCode (fst (handler_of v e req w)) = 500) /\
  (forallb (well_formed v) (memberships v e userId) = true ->
  exists r r',
    statusCode (fst (handler_of v e req w)) = 200 /\
    sent (fst (handler_of v e req w)) = Some (SuccessBody r) /\
    statusCode (fst (handler_of v e' req w)) = 200 /\
    sent (fst (handler_of v e' req w)) = Some (SuccessBody r') /\
    let b := the_breakdown r in
    let b' := the_breakdown r' in
    let groups := developer_groups v (memberships v e userId) in
    (personalVisits b = visits_in (personal_listing v e userId) /\
     personalGames b = games_in (personal_listing v e userId) /\
     groupVisits b = group_visits v e groups /\
     groupGames b = group_games v e groups) /\
    (url = userGamesUrl userId ->
       personalVisits b' = 0 /\ personalGames b' = 0 /\
       groupVisits b' = groupVisits b /\ groupGames b' = groupGames b) /\
    (url = userGroupsUrl userId ->
       groupVisits b' = 0 /\ groupGames b' = 0 /\
       personalVisits b' = personalVisits b /\ personalGames b' = personalGames b /\
       fetched (snd (handler_of v e' req w)) =
         (fetched w ++ [userGamesUrl userId; userGroupsUrl userId])%list) /\
    (forall groupId, url = groupGamesUrl groupId ->
       let others := filter (fun g => negb (String.eqb (groupGamesUrl g) url)) groups in
       personalVisits b' = personalVisits b /\ personalGames b' = personalGames b /\
       groupVisits b' = group_visits v e others /\ groupGames b' = group_games v e others)).
Proof.
  intros Hask Hmiss (Hf & Hsame & Ht1 & Ht2 & Ht3).
  assert (Hmiss' : cache_hit e' userId w = None)
    by (unfold cache_hit in *; now rewrite Ht1).
  rewrite (handler_run v e req w userId Hask Hmiss).
  rewrite (handler_run v e' req w userId Hask Hmiss').
  assert (Hmem : url <> userGroupsUrl userId ->
                 memberships v e' userId = memberships v e userId).
  { intros Hne. unfold memberships. rewrite Hsame; [reflexivity | congruence]. }
  split.
  { unfold aggregation. destruct (string_dec url (userGroupsUrl userId)) as [->|Hne].
    - unfold memberships at 1. rewrite (fails_listing _ Hf). simpl. discriminate.
    - rewrite (Hmem Hne).
      destruct (snd (plan v (memberships v e userId))); [reflexivity | discriminate]. }
  intros Hwf.
  pose proof (proj2 (plan_crash_iff v _) Hwf) as Hend.
  assert (Hper : url <> userGamesUrl userId ->
                 personal_listing v e' userId = personal_listing v e userId).
  { intros Hne. unfold personal_listing. rewrite Hsame; [reflexivity | congruence]. }
  assert (Hend' : snd (plan v (memberships v e' userId)) = None).
  { destruct (string_dec url (userGroupsUrl userId)) as [->|Hne].
    - unfold memberships. now rewrite (fails_listing _ Hf).
    - now rewrite Hmem. }
  rewrite (aggregation_ok _ _ _ _ Hend), (aggregation_ok _ _ _ _ Hend').
  exists (aggregated v e userId), (aggregated v e' userId).
  split; [reflexivity|]. split; [reflexivity|]. split; [reflexivity|]. split; [reflexivity|].
  cbv zeta. unfold aggregated. rewrite (plan_complete _ _ Hend). simpl.
  split; [repeat split|]. split; [|split].
  - intros ->. unfold personal_listing at 1 2. rewrite (fails_listing _ Hf).
    rewrite Hmem by apply userGames_not_userGroups. rewrite (plan_complete _ _ Hend).
    destruct (group_sums_ext v e v e' (developer_groups v (memberships v e userId)))
      as [-> ->].
    + intros g _. unfold group_listing. rewrite Hsame; [reflexivity|].
      intros H. symmetry in H. now apply userGames_not_groupGames in H.
    + repeat split.
  - intros ->. unfold memberships at 1 2. rewrite (fails_listing _ Hf). simpl.
    rewrite Hper by (intros H; symmetry in H; now apply userGames_not_userGroups in H).
    repeat split. unfold calls, memberships. now rewrite (fails_listing _ Hf).
  - intros groupId ->.
    rewrite Hper by (intros H; symmetry in H; now apply userGames_not_groupGames in H).
    rewrite Hmem by (intros H; symmetry in H; now apply userGroups_not_groupGames in H).
    rewrite (plan_complete _ _ Hend).
    destruct (group_sums_without v e e' (groupGamesUrl groupId)
                (developer_groups v (memberships v e userId)) Hf Hsame) as [-> ->].
    repeat split.
Qed.

Lemma single_failure_is_isolated_witness :
  both_files (fun v =>
  exists r',
    statusCode (fst (handler_of v (Scenario.failing_at (userGamesUrl "42"))
                                (Scenario.get "42") Scenario.cold)) = 200 /\
    sent (fst (handler_of v (Scenario.failing_at (userGamesUrl "42"))
                          (Scenario.get "42") Scenario.cold)) = Some (SuccessBody r') /\
    personalVisits (the_breakdown r') = 0 /\
    groupVisits (the_breakdown r') = 100).
Proof.
  apply both_files_intro. intros v. cbv beta.
  assert (Hmiss : cache_hit Scenario.at_noon "42" Scenario.cold = None) by reflexivity.
  assert (Hwf : forallb (well_formed v) (memberships v Scenario.at_noon "42") = true)
    by (destruct v; reflexivity).
  destruct (single_failure_is_isolated v Scenario.at_noon
              (Scenario.failing_at (userGamesUrl "42")) (Scenario.get "42") Scenario.cold
              "42" (userGamesUrl "42") asks_for_42 Hmiss (fails_only_at_scenario v _))
    as (_ & Hsums).
  destruct (Hsums Hwf)
    as (r & r' & _ & _ & H200 & Hbody & (_ & _ & Hgroups & _) & Hpersonal & _).
  exists r'. destruct (Hpersonal eq_refl) as (Hv & _ & Hg & _).
  split; [exact H200|]. split; [exact Hbody|]. split; [exact Hv|].
  rewrite Hg, Hgroups. destruct v; reflexivity.
Defined.

(** C3, the claim as it stands fails on a preflight: with an entry for user
    42 stored four minutes before, an [OPTIONS] request for that user is
    answered with an empty body, not with the stored result. *)
Lemma preflight_is_not_served_from_cache :
  Map.get "visits_42" (cache Scenario.warm)
    = Some {| data := Scenario.first_answer; storedAt := 3000 |} /\
  now_lookup Scenario.soon_after - 3000 < 300000 /\
  query_userId Scenario.preflight_42 = Some "42" /\
  sent (fst (handler_of VisitsJs Scenario.soon_after Scenario.preflight_42 Scenario.warm))
    = Some NoBody /\
  sent (fst (handler_of GetVisitsJs Scenario.soon_after Scenario.preflight_42 Scenario.warm))
    = Some NoBody /\
  Some NoBody <> Some (SuccessBody Scenario.first_answer).
Proof. repeat split. discriminate. Qed.

(** C3, as amended.  For a request other than a preflight and the user id
    it carries, one that passes the validation, as every user id with an
    entry in the cache of a running process does: when the cache holds an
    entry for that user that was stored less than 300,000 ms before the
    check, the handler answers 200 with the stored result as it is
    (breakdown, [totalVisits] and timestamp included), fetches nothing and
    leaves the cache alone; when the entry is 300,000 ms old or older, the
    lookup misses and the upstream is called again. *)
Theorem fresh_entry_is_served v e req w userId c :
  method req <> "OPTIONS" ->
  query_userId req = Some userId ->
  numeric userId \/ (exists history, w = serve v history) ->
  Map.get ("visits_" ++ userId) (cache w) = Some c ->
  (now_lookup e - storedAt c < 300000 ->
     statusCode (fst (handler_of v e req w)) = 200 /\
     sent (fst (handler_of v e req w)) = Some (SuccessBody (data c)) /\
     snd (handler_of v e req w) = w) /\
  (300000 <= now_lookup e - storedAt c ->
     cache_hit e userId w = None /\
     exists more,
       fetched (snd (handler_of v e req w)) =
         (fetched w ++ userGamesUrl userId :: userGroupsUrl userId :: more)%list).
Proof.
  intros Hm Hq Hvalid Hget. apply cache_lookup_cases; [|exact Hget].
  split; [exact Hm|]. split; [exact Hq|].
  destruct Hvalid as [Hn|[history ->]]; [exact Hn|].
  destruct (serve_keys_valid v history _ (get_Some_in _ _ _ Hget)) as (u & Hkey & Hn).
  apply visits_key_inj in Hkey. now subst u.
Qed.

Lemma fresh_entry_is_served_witness :
  both_files (fun v =>
    let w := snd (handler_of v Scenario.at_noon (Scenario.get "42") Scenario.cold) in
    sent (fst (handler_of v Scenario.soon_after (Scenario.get "42") w))
      = Some (SuccessBody Scenario.first_answer) /\
    snd (handler_of v Scenario.soon_after (Scenario.get "42") w) = w /\
    cache_hit Scenario.much_later "42" w = None).
Proof.
  apply both_files_intro. intros v. cbv beta. cbv zeta.
  assert (Hget : method (Scenario.get "42") <> "OPTIONS") by discriminate.
  assert (Hentry :
    Map.get ("visits_" ++ "42")
      (cache (snd (handler_of v Scenario.at_noon (Scenario.get "42") Scenario.cold)))
    = Some {| data := Scenario.first_answer; storedAt := 3000 |})
    by (destruct v; reflexivity).
  destruct (fresh_entry_is_served v Scenario.soon_after (Scenario.get "42") _ "42" _
              Hget eq_refl (or_introl numeric_42) Hentry) as [Hhit _].
  destruct (fresh_entry_is_served v Scenario.much_later (Scenario.get "42") _ "42" _
              Hget eq_refl (or_introl numeric_42) Hentry) as [_ Hmiss].
  destruct Hhit as (_ & Hbody & Hworld); [reflexivity|].
  destruct Hmiss as (Hnone & _); [discriminate|].
  split; [exact Hbody|]. split; [exact Hworld | exact Hnone].
Defined.

(** C4.  The cache of the process never holds more than 100 distinct keys,
    and on such a cache: a request changes it only if it is an aggregation
    run that reaches its end, and such a run does store its result.
    Storing under a key already held replaces the entry where it stands:
    nothing is evicted.  Storing under a new key puts it last; when 100 keys
    were held, exactly the first of them, the one inserted earliest, goes,
    and 100 keys remain. *)
Theorem cache_keeps_one_hundred v :
  (forall history, bounded (cache (serve v history))) /\
  forall e req w,
    bounded (cache w) ->
    let before := cache w in
    let after := cache (snd (handler_of v e req w)) in
    bounded after /\
    (~ (exists userId,
          asks_for req userId /\ cache_hit e userId w = None /\
          forallb (well_formed v) (memberships v e userId) = true) ->
     after = before) /\
    (forall userId,
       asks_for req userId ->
       cache_hit e userId w = None ->
       forallb (well_formed v) (memberships v e userId) = true ->
       exists r,
         statusCode (fst (handler_of v e req w)) = 200 /\
         sent (fst (handler_of v e req w)) = Some (SuccessBody r) /\
         let key := "visits_" ++ userId in
         let entry := {| data := r; storedAt := now_store e |} in
         (In key (Map.keys before) ->
            after = Map.set key entry before /\
            Map.keys after = Map.keys before /\
            Map.get key after = Some entry) /\
         (~ In key (Map.keys before) -> Map.size before < 100 ->
            after = (before ++ [(key, entry)])%list) /\
         (~ In key (Map.keys before) -> Map.size before = 100 ->
            exists first old rest,
              before = (first, old) :: rest /\
              after = (rest ++ [(key, entry)])%list /\
              Map.size after = 100)).
Proof.
  split; [apply serve_bounded|].
  intros e req w Hb. cbv zeta.
  split; [exact (proj1 (cache_step v e req w Hb))|]. split.
  - intros Hnot.
    destruct (handler_handled v e req w)
      as [Hopt|error usage _ _|userId c Hask _|userId Hask Hmiss]; try reflexivity.
    unfold aggregation.
    destruct (snd (plan v (memberships v e userId))) as [err|] eqn:Hend; [reflexivity|].
    elim Hnot. exists userId. split; [exact Hask|]. split; [exact Hmiss|].
    now apply plan_crash_iff.
  - intros userId Hask Hmiss Hwf.
    rewrite (handler_run v e req w userId Hask Hmiss).
    rewrite (aggregation_ok _ _ _ _ (proj2 (plan_crash_iff v _) Hwf)).
    exists (aggregated v e userId). split; [reflexivity|]. split; [reflexivity|].
    cbn [fst snd cache]. cbv zeta. destruct Hb as [Hnd Hsz]. split; [|split].
    + intros Hin. rewrite store_overwrite by assumption.
      split; [reflexivity|].
      split; [now apply keys_set_present | apply get_set_same].
    + intros Hout Hroom. now apply store_room.
    + intros Hout Hfull. destruct (cache w) as [|[first old] rest] eqn:Hc;
        [discriminate Hfull|].
      exists first, old, rest. split; [reflexivity|].
      rewrite (store_full _ _ _ first old rest) by auto.
      split; [reflexivity|]. rewrite size_app_one.
      unfold Map.size in *. cbn [List.length] in Hfull. lia.
Qed.

Lemma cache_keeps_one_hundred_witness :
  both_files (fun v =>
    let before := cache (serve v Scenario.hundred_users) in
    let after :=
      cache (snd (handler_of v Scenario.at_noon (Scenario.get "42")
                             (serve v Scenario.hundred_users))) in
    Map.keys after = (tl (Map.keys before) ++ ["visits_42"])%list /\
    Map.size after = 100).
Proof.
  apply both_files_intro. intros v. cbv beta. cbv zeta.
  pose proof (proj1 (cache_keeps_one_hundred v) Scenario.hundred_users) as Hb.
  destruct (proj2 (cache_keeps_one_hundred v) Scenario.at_noon (Scenario.get "42")
              (serve v Scenario.hundred_users) Hb) as (_ & _ & Hwrite).
  destruct (Hwrite "42" asks_for_42) as (r & _ & _ & _ & _ & Hfull).
  - destruct v; vm_compute; reflexivity.
  - destruct v; reflexivity.
  - destruct Hfull as (first & old & rest & Hbefore & Hafter & Hsize).
    + apply (proj1 (get_None_iff _ _)). destruct v; vm_compute; reflexivity.
    + destruct v; vm_compute; reflexivity.
    + split; [|exact Hsize]. rewrite Hafter, Hbefore, keys_app_one. reflexivity.
Defined.

(** The 101st key: user 100, who came first, goes; user 42 comes last. *)
Example one_hundred_and_first_key :
  let before := Map.keys (cache (serve VisitsJs Scenario.hundred_users)) in
  let after :=
    Map.keys (cache (snd (handler_of VisitsJs Scenario.at_noon (Scenario.get "42")
                                     (serve VisitsJs Scenario.hundred_users)))) in
  List.length before = 100%nat /\
  hd_error before = Some "visits_100" /\
  after = (tl before ++ ["visits_42"])%list /\
  List.length after = 100%nat.
Proof. vm_compute. repeat split. Qed.

(** C5, the claim as it stands fails on a preflight: an [OPTIONS] request
    whose [userId] is ["abc"] is answered 200 with an empty body, not 400. *)
Lemma preflight_is_not_validated :
  ~ numeric "abc" /\
  statusCode (fst (handler_of VisitsJs Scenario.at_noon Scenario.preflight Scenario.cold)) = 200 /\
  sent (fst (handler_of VisitsJs Scenario.at_noon Scenario.preflight Scenario.cold))
    = Some NoBody.
Proof.
  split; [|split; reflexivity].
  intros H. apply test_digits_spec in H. discriminate H.
Qed.

(** C5, as amended.  A request other than a preflight whose [userId] is
    missing or does not match [^\d+$] is answered 400 with an error body,
    without any fetch and without any change of the cache; and no request
    whose [userId] is a non-empty string of decimal digits is answered
    400. *)
Theorem invalid_userId_is_refused v e req w :
  method req <> "OPTIONS" ->
  ((forall userId, query_userId req = Some userId -> ~ numeric userId) ->
     statusCode (fst (handler_of v e req w)) = 400 /\
     (exists error usage, sent (fst (handler_of v e req w)) = Some (ErrorBody error usage)) /\
     snd (handler_of v e req w) = w) /\
  (forall userId, query_userId req = Some userId -> numeric userId ->
     statusCode (fst (handler_of v e req w)) <> 400).
Proof.
  intros Hm. pose proof (handler_handled v e req w) as H. split.
  - intros Hbad. inversion H as [Hopt|error usage _ _|userId c Hask _|userId Hask _].
    + contradiction.
    + simpl. repeat split. now exists error, usage.
    + destruct Hask as (_ & Hq & Hn). elim (Hbad _ Hq Hn).
    + destruct Hask as (_ & Hq & Hn). elim (Hbad _ Hq Hn).
  - intros userId Hq Hn.
    inversion H as [Hopt|error usage _ Hbad|u c Hask _|u Hask _].
    + contradiction.
    + elim (Hbad _ Hq Hn).
    + simpl. discriminate.
    + unfold aggregation. destruct (snd (plan _ _)); simpl; discriminate.
Qed.

Lemma invalid_userId_is_refused_witness :
  statusCode (fst (handler_of VisitsJs Scenario.at_noon (Scenario.get "abc") Scenario.cold)) = 400 /\
  snd (handler_of VisitsJs Scenario.at_noon (Scenario.get "abc") Scenario.cold) = Scenario.cold /\
  statusCode (fst (handler_of VisitsJs Scenario.at_noon (Scenario.get "42") Scenario.cold)) <> 400.
Proof.
  assert (Hget : method (Scenario.get "abc") <> "OPTIONS") by discriminate.
  assert (Hget' : method (Scenario.get "42") <> "OPTIONS") by discriminate.
  destruct (invalid_userId_is_refused VisitsJs Scenario.at_noon (Scenario.get "abc")
              Scenario.cold Hget) as [Hbad _].
  destruct (invalid_userId_is_refused VisitsJs Scenario.at_noon (Scenario.get "42")
              Scenario.cold Hget') as [_ Hgood].
  destruct Hbad as (H400 & _ & Hworld).
  { intros userId [= <-] Hn. apply test_digits_spec in Hn. discriminate Hn. }
  repeat split; try assumption.
  exact (Hgood "42" eq_refl numeric_42).
Defined.

(** C6.  A role is a developer role exactly when its name in lower case
    contains one of the eleven words; ["Co-Owner"] and ["LEAD SCRIPTER"]
    are developer roles and ["Moderator"] is not; and the group fetches of a
    run are those of developer-tier memberships, so that a membership with
    another role triggers none. *)
Theorem developer_role_classification v :
  (forall roleName,
      isDeveloperRole_of v roleName = true <->
      exists word,
        In word [ "developer"; "builder"; "scripter"; "programmer";
                  "lead developer"; "co-owner"; "owner"; "dev";
                  "game developer"; "lead scripter"; "head developer" ] /\
        occurs_in word (JS.toLowerCase roleName)) /\
  isDeveloperRole_of v "Co-Owner" = true /\
  isDeveloperRole_of v "LEAD SCRIPTER" = true /\
  isDeveloperRole_of v "Moderator" = false /\
  (forall e req w userId,
      asks_for req userId ->
      cache_hit e userId w = None ->
      exists reached later,
        filter (developer_tier v) (memberships v e userId) = (reached ++ later)%list /\
        fetched (snd (handler_of v e req w)) =
          (fetched w ++ userGamesUrl userId :: userGroupsUrl userId ::
             map groupGamesUrl (map groupId_of reached))%list).
Proof.
  split; [exact (isDeveloperRole_spec v)|].
  repeat split; try (destruct v; reflexivity).
  intros e req w userId Hask Hmiss.
  destruct (plan_reached v (memberships v e userId)) as (reached & later & Hsplit & Hids & _).
  exists reached, later. split; [exact Hsplit|].
  rewrite (handler_run v e req w userId Hask Hmiss), aggregation_fetched.
  unfold calls. now rewrite Hids.
Qed.

Lemma developer_role_classification_witness :
  exists reached later,
    filter (developer_tier VisitsJs) (memberships VisitsJs Scenario.at_noon "42")
      = (reached ++ later)%list /\
    fetched (snd (handler_of VisitsJs Scenario.at_noon (Scenario.get "42") Scenario.cold)) =
      (fetched Scenario.cold ++ userGamesUrl "42" :: userGroupsUrl "42" ::
         map groupGamesUrl (map groupId_of reached))%list.
Proof.
  exact (proj2 (proj2 (proj2 (proj2 (developer_role_classification VisitsJs))))
           Scenario.at_noon (Scenario.get "42") Scenario.cold "42"
           asks_for_42 eq_refl).
Defined.

(** C7.  A game without a visit counter adds nothing to the sum and one to
    the count, a game with a counter adds its counter and one; so in a
    success response the personal sums are those of the listing returned,
    the count being its length, and the group sums are those of the
    listings of the developer-tier groups. *)
Theorem missing_counter_is_zero v e req w userId res w' r :
  asks_for req userId ->
  cache_hit e userId w = None ->
  handler_of v e req w = (res, w') ->
  sent res = Some (SuccessBody r) ->
  (forall game a b, placeVisits game = None -> count_game (a, b) game = (a, b + 1)) /\
  (forall game n a b, placeVisits game = Some n -> count_game (a, b) game = (a + n, b + 1)) /\
  (forall st txt games,
      answer v e (userGamesUrl userId) = Responded st txt (inr {| payload_data := Some games |}) ->
      ok st = true ->
      personalVisits (the_breakdown r) = visits_in games /\
      personalGames (the_breakdown r) = Z.of_nat (List.length games)) /\
  groupVisits (the_breakdown r) = group_visits v e (developer_groups v (memberships v e userId)) /\
  groupGames (the_breakdown r) = group_games v e (developer_groups v (memberships v e userId)).
Proof.
  intros Hask Hmiss Hrun Hbody.
  rewrite (handler_run v e req w userId Hask Hmiss) in Hrun.
  destruct (aggregation_success _ _ _ _ _ _ _ Hrun Hbody) as (Hend & -> & _).
  unfold aggregated. rewrite (plan_complete _ _ Hend). simpl.
  split; [|split; [|split; [|split; reflexivity]]].
  - intros game a b H. unfold count_game, JS.or_zero, JS.or_else. rewrite H. f_equal. lia.
  - intros game n a b H. unfold count_game, JS.or_zero, JS.or_else. now rewrite H.
  - intros st txt games Hans Hok. unfold personal_listing, listing.
    rewrite Hans, Hok. simpl. split; reflexivity.
Qed.

Lemma missing_counter_is_zero_witness :
  personalVisits (the_breakdown Scenario.first_answer) = 12 /\
  personalGames (the_breakdown Scenario.first_answer) = 3.
Proof.
  destruct (missing_counter_is_zero VisitsJs Scenario.at_noon (Scenario.get "42")
              Scenario.cold "42"
              (json (SuccessBody Scenario.first_answer) (status 200 cors)) Scenario.warm
              Scenario.first_answer asks_for_42 eq_refl eq_refl eq_refl)
    as (_ & _ & Hpersonal & _).
  exact (Hpersonal 200%N "OK"
           [Scenario.game (Some 5); Scenario.game None; Scenario.game (Some 7)]
           eq_refl eq_refl).
Defined.

(** C8.  An aggregation run calls the personal-games endpoint once, the
    memberships endpoint once, and then the games endpoint of developer-tier
    memberships, one call for each in their order: for all of them when the
    run ends with 200, for those before the failing membership otherwise.
    No call is repeated, so at most 1 + 1 + G calls are made, G being the
    number of developer-tier memberships. *)
Theorem upstream_called_once_each v e req w userId :
  asks_for req userId ->
  cache_hit e userId w = None ->
  exists reached later,
    filter (developer_tier v) (memberships v e userId) = (reached ++ later)%list /\
    (statusCode (fst (handler_of v e req w)) = 200 -> later = []) /\
    let made :=
      userGamesUrl userId :: userGroupsUrl userId ::
      map (fun m => groupGamesUrl (groupId_of m)) reached in
    fetched (snd (handler_of v e req w)) = (fetched w ++ made)%list /\
    count_occ string_dec made (userGamesUrl userId) = 1%nat /\
    count_occ string_dec made (userGroupsUrl userId) = 1%nat /\
    (List.length made <=
       1 + 1 + List.length (filter (developer_tier v) (memberships v e userId)))%nat.
Proof.
  intros Hask Hmiss.
  destruct (plan_reached v (memberships v e userId)) as (reached & later & Hsplit & Hids & Hend).
  exists reached, later. rewrite (handler_run v e req w userId Hask Hmiss).
  split; [exact Hsplit|]. split.
  { intros H200. apply Hend. exact (aggregation_status v e userId w H200). }
  cbv zeta. rewrite <- map_map, <- Hids. split; [apply aggregation_fetched|].
  split; [|split].
  - cbn [count_occ].
    destruct (string_dec (userGamesUrl userId) (userGamesUrl userId)) as [_|Hne];
      [|now elim Hne].
    destruct (string_dec (userGroupsUrl userId) (userGamesUrl userId)) as [Heq|_].
    + symmetry in Heq. now apply userGames_not_userGroups in Heq.
    + rewrite groupGames_urls_exclude; [reflexivity|].
      intros g. apply userGames_not_groupGames.
  - cbn [count_occ].
    destruct (string_dec (userGamesUrl userId) (userGroupsUrl userId)) as [Heq|_].
    + now apply userGames_not_userGroups in Heq.
    + destruct (string_dec (userGroupsUrl userId) (userGroupsUrl userId)) as [_|Hne];
        [|now elim Hne].
      rewrite groupGames_urls_exclude; [reflexivity|].
      intros g. apply userGroups_not_groupGames.
  - rewrite Hsplit. cbn [List.length]. rewrite length_map, Hids, length_map, length_app. lia.
Qed.

Lemma upstream_called_once_each_witness :
  exists reached later,
    filter (developer_tier VisitsJs) (memberships VisitsJs Scenario.at_noon "42")
      = (reached ++ later)%list /\
    (statusCode (fst (handler_of VisitsJs Scenario.at_noon (Scenario.get "42") Scenario.cold)) = 200 ->
     later = []) /\
    let made :=
      userGamesUrl "42" :: userGroupsUrl "42" ::
      map (fun m => groupGamesUrl (groupId_of m)) reached in
    fetched (snd (handler_of VisitsJs Scenario.at_noon (Scenario.get "42") Scenario.cold))
      = (fetched Scenario.cold ++ made)%list /\
    count_occ string_dec made (userGamesUrl "42") = 1%nat /\
    count_occ string_dec made (userGroupsUrl "42") = 1%nat /\
    (List.length made <=
       1 + 1 + List.length (filter (developer_tier VisitsJs)
                              (memberships VisitsJs Scenario.at_noon "42")))%nat.
Proof.
  exact (upstream_called_once_each VisitsJs Scenario.at_noon (Scenario.get "42")
           Scenario.cold "42" asks_for_42 eq_refl).
Defined.

(** C9.  A request answered 500 leaves the cache as it was: nothing is
    stored for the user, and a request for the same user made at that time
    or later finds no fresh entry and calls the upstream again. *)
Theorem failure_is_not_cached v e req w :
  statusCode (fst (handler_of v e req w)) = 500 ->
  cache (snd (handler_of v e req w)) = cache w /\
  exists userId,
    asks_for req userId /\
    forall e2 req2,
      asks_for req2 userId ->
      now_lookup e <= now_lookup e2 ->
      cache_hit e2 userId (snd (handler_of v e req w)) = None /\
      exists more,
        fetched (snd (handler_of v e2 req2 (snd (handler_of v e req w)))) =
          (fetched (snd (handler_of v e req w)) ++
             userGamesUrl userId :: userGroupsUrl userId :: more)%list.
Proof.
  destruct (handler_handled v e req w) as [Hopt|error usage _ _|userId c Hask _|userId Hask Hmiss];
    intros H500; try discriminate H500.
  rewrite (aggregation_failure _ _ _ _ H500). split; [reflexivity|].
  exists userId. split; [exact Hask|]. intros e2 req2 Hask2 Hlater.
  assert (Hmiss2 : cache_hit e2 userId (pushes (calls v e userId) w) = None)
    by (now apply stale_stays_stale with e w).
  split; [exact Hmiss2|]. eexists.
  rewrite (handler_run v e2 req2 _ userId Hask2 Hmiss2). apply aggregation_fetched.
Qed.

Lemma failure_is_not_cached_witness :
  statusCode (fst (handler_of VisitsJs Scenario.malformed (Scenario.get "42") Scenario.cold)) = 500 /\
  cache (snd (handler_of VisitsJs Scenario.malformed (Scenario.get "42") Scenario.cold))
    = cache Scenario.cold.
Proof.
  split; [reflexivity|].
  exact (proj1 (failure_is_not_cached VisitsJs Scenario.malformed (Scenario.get "42")
                  Scenario.cold eq_refl)).
Defined.

(** C10, the claim as it stands fails against an upstream that looks at the
    [User-Agent] header, which [visits.js] sends and [get-visits.js] does
    not: when header-less fetches are turned away with 403, the first file
    answers user 42 with the sums and the second with zeros. *)
Lemma user_agent_tells_the_files_apart :
  sent (fst (Visits.handler Scenario.picky (Scenario.get "42") Scenario.cold))
    = Some (SuccessBody Scenario.first_answer) /\
  sent (fst (GetVisits.handler Scenario.picky (Scenario.get "42") Scenario.cold))
    = Some (SuccessBody Scenario.nothing_found) /\
  sent (fst (Visits.handler Scenario.picky (Scenario.get "42") Scenario.cold))
    <> sent (fst (GetVisits.handler Scenario.picky (Scenario.get "42") Scenario.cold)).
Proof. split; [reflexivity|]. split; [reflexivity|]. discriminate. Qed.

(** C10, as amended.  Against an upstream that answers the two files alike (it does not
    tell the [User-Agent] header of [visits.js] from its absence), the two
    handlers give the same status code and the same body for every request
    and every cache, and leave the same cache behind. *)
Theorem variants_agree e req w :
  (forall url, upstream e url Visits.fetch_headers = upstream e url GetVisits.fetch_headers) ->
  statusCode (fst (Visits.handler e req w)) = statusCode (fst (GetVisits.handler e req w)) /\
  sent (fst (Visits.handler e req w)) = sent (fst (GetVisits.handler e req w)) /\
  snd (Visits.handler e req w) = snd (GetVisits.handler e req w).
Proof.
  intros Hsame.
  enough (E : handler_of VisitsJs e req w = handler_of GetVisitsJs e req w).
  { simpl in E. rewrite E. repeat split. }
  pose proof (handler_handled VisitsJs e req w) as H.
  destruct (string_dec (method req) "OPTIONS") as [Hm|Hm].
  { now rewrite !handler_options. }
  destruct (query_userId req) as [userId|] eqn:Hq.
  2: { now rewrite !handler_missing by auto. }
  destruct (string_dec userId "") as [->|Hne].
  { now rewrite !handler_missing by auto. }
  destruct (JS.test_digits userId) eqn:Ht.
  2: { now rewrite !(handler_invalid _ e req w userId) by assumption. }
  destruct (cache_hit e userId w) as [c|] eqn:Hc.
  - now rewrite !(handler_hit _ e req w userId c) by assumption.
  - rewrite !(handler_miss _ e req w userId) by assumption.
    now apply aggregation_variants.
Qed.

Lemma variants_agree_witness :
  statusCode (fst (Visits.handler Scenario.at_noon (Scenario.get "42") Scenario.cold)) =
  statusCode (fst (GetVisits.handler Scenario.at_noon (Scenario.get "42") Scenario.cold)) /\
  sent (fst (Visits.handler Scenario.at_noon (Scenario.get "42") Scenario.cold)) =
  sent (fst (GetVisits.handler Scenario.at_noon (Scenario.get "42") Scenario.cold)) /\
  snd (Visits.handler Scenario.at_noon (Scenario.get "42") Scenario.cold) =
  snd (GetVisits.handler Scenario.at_noon (Scenario.get "42") Scenario.cold).
Proof.
  apply (variants_agree Scenario.at_noon (Scenario.get "42") Scenario.cold).
  intros url. reflexivity.
Defined.


(** ** Further properties of the code *)

(** X1.  Whatever the request and however it ends, the response carries the
    three CORS headers and no other. *)
Theorem cors_headers_always v e req w :
  headers (fst (handler_of v e req w)) = cors_headers.
Proof.
  destruct (handler_handled v e req w)
    as [Hopt|error usage _ _|userId c Hask _|userId Hask Hmiss]; try reflexivity.
  unfold aggregation. destruct (snd (plan _ _)); reflexivity.
Qed.

(** X2.  A preflight is answered 200 with an empty body, whatever its query
    and whatever the cache holds; nothing is fetched and the cache is left
    alone. *)
Theorem preflight_is_bare v e req w :
  method req = "OPTIONS" ->
  statusCode (fst (handler_of v e req w)) = 200 /\
  sent (fst (handler_of v e req w)) = Some NoBody /\
  snd (handler_of v e req w) = w.
Proof. intros H. rewrite (handler_options v e req w H). repeat split. Qed.

Lemma preflight_is_bare_witness :
  statusCode (fst (handler_of GetVisitsJs Scenario.at_noon Scenario.preflight Scenario.warm)) = 200 /\
  sent (fst (handler_of GetVisitsJs Scenario.at_noon Scenario.preflight Scenario.warm))
    = Some NoBody /\
  snd (handler_of GetVisitsJs Scenario.at_noon Scenario.preflight Scenario.warm) = Scenario.warm.
Proof.
  exact (preflight_is_bare GetVisitsJs Scenario.at_noon Scenario.preflight Scenario.warm eq_refl).
Defined.

(** X3.  The handler always sends a body, and the status tells its kind:
    200 with no body or a success body, 400 with an error body, 500 with the
    failure body that echoes the user id. *)
Theorem status_tells_the_body v e req w :
  let res := fst (handler_of v e req w) in
  (statusCode res = 200 /\
     (sent res = Some NoBody \/ exists r, sent res = Some (SuccessBody r))) \/
  (statusCode res = 400 /\ exists error usage, sent res = Some (ErrorBody error usage)) \/
  (statusCode res = 500 /\
     exists details userId,
       query_userId req = Some userId /\
       sent res = Some (FailureBody "Failed to fetch visit data" details userId)).
Proof.
  cbv zeta.
  destruct (handler_handled v e req w)
    as [Hopt|error usage _ _|userId c Hask _|userId Hask Hmiss].
  - left. split; [reflexivity | now left].
  - right; left. split; [reflexivity | now exists error, usage].
  - left. split; [reflexivity | right; now eexists].
  - unfold aggregation. destruct (snd (plan _ _)) as [err|].
    + right; right. split; [reflexivity|].
      exists (message_of err), userId. split; [apply Hask | reflexivity].
    + left. split; [reflexivity | right; now eexists].
Qed.

(** X4.  The two refusals differ: a [userId] that is absent or empty is
    answered with the message of a missing parameter and a usage hint, a
    [userId] that is there but not a number with the message of an invalid
    one and no hint. *)
Theorem refusal_names_the_fault v e req w :
  method req <> "OPTIONS" ->
  (query_userId req = None \/ query_userId req = Some "" ->
     sent (fst (handler_of v e req w)) =
     Some (ErrorBody "Missing userId parameter" (Some "GET /api/get-visits?userId=123456"))) /\
  (forall userId,
     query_userId req = Some userId -> userId <> "" -> ~ numeric userId ->
     sent (fst (handler_of v e req w)) =
     Some (ErrorBody "Invalid userId - must be numeric" None)).
Proof.
  intros Hm. split.
  - intros Hq. now rewrite (handler_missing v e req w Hm Hq).
  - intros userId Hq Hne Hn.
    rewrite (handler_invalid v e req w userId Hm Hq Hne); [reflexivity|].
    destruct (JS.test_digits userId) eqn:Ht; [|reflexivity].
    apply test_digits_spec in Ht. contradiction.
Qed.

Lemma refusal_names_the_fault_witness :
  sent (fst (handler_of VisitsJs Scenario.at_noon (Scenario.get "") Scenario.cold)) =
    Some (ErrorBody "Missing userId parameter" (Some "GET /api/get-visits?userId=123456")) /\
  sent (fst (handler_of VisitsJs Scenario.at_noon (Scenario.get "abc") Scenario.cold)) =
    Some (ErrorBody "Invalid userId - must be numeric" None).
Proof.
  assert (H1 : method (Scenario.get "") <> "OPTIONS") by discriminate.
  assert (H2 : method (Scenario.get "abc") <> "OPTIONS") by discriminate.
  split.
  - exact (proj1 (refusal_names_the_fault VisitsJs Scenario.at_noon (Scenario.get "")
                    Scenario.cold H1) (or_intror eq_refl)).
  - apply (proj2 (refusal_names_the_fault VisitsJs Scenario.at_noon (Scenario.get "abc")
                    Scenario.cold H2) "abc" eq_refl); [discriminate|].
    intros Hn. apply test_digits_spec in Hn. discriminate Hn.
Defined.

(** X5.  [fetchJSON] throws exactly when the call has failed (a rejection, a
    status outside 200-299, or a body that does not parse) and returns the
    parsed body otherwise; either way the call is on record once and the
    cache is untouched. *)
Theorem fetchJSON_throws_iff_fails v e url w :
  snd (fetchJSON_of v e url w) = pushes [url] w /\
  (fails (answer v e url) = true <-> exists err, fst (fetchJSON_of v e url w) = inl err) /\
  (forall st txt p,
     answer v e url = Responded st txt (inr p) -> ok st = true ->
     fst (fetchJSON_of v e url w) = inr p).
Proof.
  unfold answer.
  destruct v; unfold fetchJSON_of, headers_of, Visits.fetchJSON, GetVisits.fetchJSON,
    bind, fetch, parse, throw, ret, fails, pushes; simpl;
    match goal with
    | |- context [upstream ?e ?url ?h] =>
        destruct (upstream e url h) as [m|st txt [m|p]]; simpl; try destruct (ok st) eqn:Hok
    end; simpl;
    (split; [reflexivity|]); (split; [split|]);
    try (intros _; eexists; reflexivity);
    try discriminate;
    try (intros [err H]; discriminate H);
    try (intros st' txt' p' [=]; subst; congruence).
Qed.

Lemma fetchJSON_throws_iff_fails_witness :
  fst (fetchJSON_of GetVisitsJs Scenario.at_noon (groupGamesUrl (Some 7)) Scenario.cold)
    = inr {| payload_data := Some [Scenario.game (Some 100); Scenario.game None] |} /\
  exists err,
    fst (fetchJSON_of GetVisitsJs Scenario.at_noon (groupGamesUrl (Some 9)) Scenario.cold)
      = inl err.
Proof.
  split.
  - exact (proj2 (proj2 (fetchJSON_throws_iff_fails GetVisitsJs Scenario.at_noon
                           (groupGamesUrl (Some 7)) Scenario.cold))
                 200%N "OK" _ eq_refl eq_refl).
  - exact (proj1 (proj1 (proj2 (fetchJSON_throws_iff_fails GetVisitsJs Scenario.at_noon
                                  (groupGamesUrl (Some 9)) Scenario.cold)))
                 eq_refl).
Defined.

Lemma plan_crash_reads v groups err :
  snd (plan v groups) = Some err ->
  exists prop, In prop ["name"; "toLowerCase"; "id"] /\ err = undefined_read prop.
Proof.
  induction groups as [|m groups IH]; [discriminate|].
  destruct m as [pv [[[n|]]|] gr]; simpl.
  - destruct (isDeveloperRole_of v n); [|exact IH].
    destruct gr as [g|]; simpl; [exact IH|].
    intros [= <-]. exists "id". simpl. tauto.
  - intros [= <-]. exists "toLowerCase". simpl. tauto.
  - intros [= <-]. exists "name". simpl. tauto.
Qed.

Lemma plan_first_fault v good m rest :
  forallb (well_formed v) good = true ->
  snd (plan v (good ++ m :: rest)) = snd (plan v (m :: rest)).
Proof.
  induction good as [|g good IH]; [reflexivity|].
  destruct g as [pv [[[n|]]|] gr]; simpl; try discriminate.
  destruct (isDeveloperRole_of v n); [|exact IH].
  destruct gr as [gg|]; simpl; [exact IH | discriminate].
Qed.

(** X6.  Over upstream data as the model has it (a [data] array of objects
    whose [role], role [name] and [group] are absent or of the expected
    type): an aggregation run over memberships that the loop can process is
    answered 200, and so is a run whose memberships fetch fails; a run that
    meets, after memberships it can process, one without a role, one whose
    role has no name, or a developer-tier one without a group, is answered
    500, and the details are the message of the read of [name], of
    [toLowerCase] or of [id] on [undefined], in that order. *)
Theorem failure_means_malformed_membership v e req w userId :
  asks_for req userId ->
  cache_hit e userId w = None ->
  let res := fst (handler_of v e req w) in
  let failure prop :=
    FailureBody "Failed to fetch visit data"
                ("Cannot read properties of undefined (reading '" ++ prop ++ "')")
                userId in
  (forallb (well_formed v) (memberships v e userId) = true -> statusCode res = 200) /\
  (fails (answer v e (userGroupsUrl userId)) = true -> statusCode res = 200) /\
  (forall good m rest,
     memberships v e userId = (good ++ m :: rest)%list ->
     forallb (well_formed v) good = true ->
     (role m = None ->
        statusCode res = 500 /\ sent res = Some (failure "name")) /\
     (forall r, role m = Some r -> role_name r = None ->
        statusCode res = 500 /\ sent res = Some (failure "toLowerCase")) /\
     (developer_tier v m = true -> group m = None ->
        statusCode res = 500 /\ sent res = Some (failure "id"))).
Proof.
  intros Hask Hmiss. cbv zeta. rewrite (handler_run v e req w userId Hask Hmiss).
  split; [|split].
  - intros Hwf. now rewrite (aggregation_ok _ _ _ _ (proj2 (plan_crash_iff v _) Hwf)).
  - intros Hf. rewrite aggregation_ok; [reflexivity|].
    unfold memberships. now rewrite (fails_listing _ Hf).
  - intros good m rest Hsplit Hgood. unfold aggregation.
    rewrite Hsplit, (plan_first_fault v good m rest Hgood).
    destruct m as [pv [[[n|]]|] gr]; cbn [role role_name group developer_tier plan].
    + split; [intros H; discriminate H|].
      split; [intros r [= <-] H; discriminate H|].
      intros Hdev Hgr. rewrite Hdev, Hgr. split; reflexivity.
    + split; [intros H; discriminate H|].
      split; [|intros H; discriminate H].
      intros r _ _. split; reflexivity.
    + split; [intros _; split; reflexivity|].
      split; [intros r H; discriminate H | intros H; discriminate H].
Qed.

Lemma failure_means_malformed_membership_witness :
  both_files (fun v =>
    statusCode (fst (handler_of v Scenario.malformed (Scenario.get "42") Scenario.cold)) = 500 /\
    sent (fst (handler_of v Scenario.malformed (Scenario.get "42") Scenario.cold))
      = Some (FailureBody "Failed to fetch visit data"
                "Cannot read properties of undefined (reading 'name')" "42")).
Proof.
  apply both_files_intro. intros v. cbv beta.
  assert (Hmiss : cache_hit Scenario.malformed "42" Scenario.cold = None) by reflexivity.
  destruct (failure_means_malformed_membership v Scenario.malformed (Scenario.get "42")
              Scenario.cold "42" asks_for_42 Hmiss) as (_ & _ & Hfault).
  destruct (Hfault [Scenario.member "Owner" 7] (Scenario.game None)
              [Scenario.member "Builder" 9]) as (Hrole & _).
  - reflexivity.
  - destruct v; reflexivity.
  - exact (Hrole eq_refl).
Defined.

Lemma store_get_same k v c : bounded c -> Map.get k (store k v c) = Some v.
Proof.
  intros [Hnd Hsz]. destruct (in_dec string_dec k (Map.keys c)) as [Hin|Hout].
  - rewrite store_overwrite by assumption. apply get_set_same.
  - destruct (Z.eq_dec (Map.size c) 100) as [Hfull|Hroom].
    + destruct c as [|[first old] rest]; [discriminate Hfull|].
      rewrite (store_full k v _ first old rest) by auto.
      rewrite <- set_absent; [apply get_set_same|].
      intros Hin. apply Hout. now right.
    + rewrite store_room by (assumption || lia).
      rewrite <- set_absent by exact Hout. apply get_set_same.
Qed.

(** X7.  A result that has been answered is answered again: after a run
    that ends with 200 the cache holds that result under the user's key,
    stamped with the time of the store, and a request for the same user
    made less than 300,000 ms after that time gets the same body from the
    cache, without a fetch. *)
Theorem answered_result_is_served_again v history e req e2 req2 userId r :
  let w := serve v history in
  let w' := snd (handler_of v e req w) in
  asks_for req userId ->
  cache_hit e userId w = None ->
  sent (fst (handler_of v e req w)) = Some (SuccessBody r) ->
  asks_for req2 userId ->
  now_lookup e2 - now_store e < 300000 ->
  Map.get ("visits_" ++ userId) (cache w') = Some {| data := r; storedAt := now_store e |} /\
  handler_of v e2 req2 w' = (json (SuccessBody r) (status 200 cors), w').
Proof.
  cbv zeta. intros Hask Hmiss Hbody Hask2 Hsoon.
  rewrite (handler_run v e req _ userId Hask Hmiss) in *.
  destruct (aggregation v e userId (serve v history)) as [res w'] eqn:Hrun.
  cbn [fst snd] in *.
  destruct (aggregation_success _ _ _ _ _ _ _ Hrun Hbody) as (_ & -> & _ & Hcache).
  assert (Hget : Map.get ("visits_" ++ userId) (cache w') =
                 Some {| data := aggregated v e userId; storedAt := now_store e |}).
  { rewrite Hcache. apply store_get_same, serve_bounded. }
  split; [exact Hget|].
  apply (handler_cached v e2 req2 w' userId
           {| data := aggregated v e userId; storedAt := now_store e |} Hask2).
  unfold cache_hit. rewrite Hget. cbn [storedAt].
  destruct (Z.ltb_spec (now_lookup e2 - now_store e) 300000); [reflexivity | lia].
Qed.

Lemma answered_result_is_served_again_witness :
  handler_of VisitsJs Scenario.soon_after (Scenario.get "42")
             (snd (handler_of VisitsJs Scenario.at_noon (Scenario.get "42") (serve VisitsJs [])))
  = (json (SuccessBody Scenario.first_answer) (status 200 cors),
     snd (handler_of VisitsJs Scenario.at_noon (Scenario.get "42") (serve VisitsJs []))).
Proof.
  refine (proj2 (answered_result_is_served_again VisitsJs [] Scenario.at_noon
                   (Scenario.get "42") Scenario.soon_after (Scenario.get "42") "42"
                   Scenario.first_answer asks_for_42 eq_refl eq_refl asks_for_42 _)).
  reflexivity.
Defined.

Lemma set_Forall {V} (P : string * V -> Prop) k v (m : Map.t V) :
  P (k, v) -> Forall P m -> Forall P (Map.set k v m).
Proof.
  intros Hv. induction 1 as [|[k' v'] m Hkv Hm IH]; simpl.
  - now repeat constructor.
  - destruct (String.eqb k' k); constructor; assumption.
Qed.

Lemma delete_Forall {V} (P : string * V -> Prop) k (m : Map.t V) :
  Forall P m -> Forall P (Map.delete k m).
Proof.
  induction 1 as [|[k' v'] m Hkv Hm IH]; simpl; [constructor|].
  destruct (String.eqb k' k); [assumption | now constructor].
Qed.

Lemma get_In {V} k v (m : Map.t V) : Map.get k m = Some v -> In (k, v) m.
Proof.
  induction m as [|[k' v'] m IH]; simpl; [discriminate|].
  destruct (String.eqb_spec k' k) as [->|Hne].
  - intros [= ->]. now left.
  - intros H. right. now apply IH.
Qed.

Lemma group_games_nonneg v e ids : 0 <= group_games v e ids.
Proof.
  induction ids as [|g ids IH]; simpl; [lia|]. unfold games_in. lia.
Qed.

Lemma aggregated_consistent v e userId : consistent (aggregated v e userId).
Proof.
  unfold consistent, aggregated, summary. simpl.
  repeat split; try reflexivity; [unfold games_in; lia | apply group_games_nonneg].
Qed.

Lemma handler_sound v e req w :
  cache_sound (cache w) -> cache_sound (cache (snd (handler_of v e req w))).
Proof.
  intros Hw.
  destruct (handler_handled v e req w)
    as [Hopt|error usage _ _|userId c Hask _|userId Hask Hmiss]; try exact Hw.
  unfold aggregation. destruct (snd (plan _ _)); [exact Hw|].
  cbn [snd cache]. unfold store, cache_sound.
  assert (Hset : Forall (fun kv : string * cached => consistent (data (snd kv)))
                   (Map.set ("visits_" ++ userId)
                      {| data := aggregated v e userId; storedAt := now_store e |} (cache w))).
  { apply set_Forall; [apply aggregated_consistent | exact Hw]. }
  destruct (100 <? _); [|exact Hset].
  destruct (Map.first_key _); [now apply delete_Forall | exact Hset].
Qed.

Lemma serve_sound v history : cache_sound (cache (serve v history)).
Proof.
  unfold serve.
  assert (H0 : cache_sound (cache started)) by constructor.
  revert H0. generalize started.
  induction history as [|[e req] history IH]; intros w Hw; simpl; [exact Hw|].
  apply IH. now apply handler_sound.
Qed.

(** X8.  Whatever the process has served, every success body it sends,
    fresh or from the cache, is consistent: the flag is [true], the note is
    the fixed one, the totals are the sums of their parts and no game count
    is negative. *)
Theorem every_success_body_is_consistent v history e req r :
  sent (fst (handler_of v e req (serve v history))) = Some (SuccessBody r) ->
  consistent r.
Proof.
  pose proof (serve_sound v history) as Hsound.
  destruct (handler_handled v e req (serve v history))
    as [Hopt|error usage _ _|userId c Hask Hhit|userId Hask Hmiss]; cbn [fst sent json].
  - discriminate.
  - discriminate.
  - intros [= <-]. unfold cache_hit in Hhit.
    destruct (Map.get _ _) as [c0|] eqn:Hget; [|discriminate].
    destruct (_ <? _); [|discriminate]. injection Hhit as ->.
    apply get_In in Hget. unfold cache_sound in Hsound.
    rewrite Forall_forall in Hsound. exact (Hsound _ Hget).
  - unfold aggregation. destruct (snd (plan _ _)); cbn [fst sent json]; [discriminate|].
    intros [= <-]. apply aggregated_consistent.
Qed.

Lemma every_success_body_is_consistent_witness :
  consistent Scenario.first_answer.
Proof.
  apply (every_success_body_is_consistent VisitsJs [(Scenario.at_noon, Scenario.get "42")]
           Scenario.soon_after (Scenario.get "42")).
  reflexivity.
Defined.

(** X9.  The cache of the process never holds a key for a refused user id:
    each key is [visits_] followed by a non-empty string of digits. *)
Theorem cache_keys_are_validated_users v history k :
  In k (Map.keys (cache (serve v history))) ->
  exists userId, k = "visits_" ++ userId /\ numeric userId.
Proof. apply serve_keys_valid. Qed.

Lemma cache_keys_are_validated_users_witness :
  exists userId, "visits_42" = "visits_" ++ userId /\ numeric userId.
Proof.
  apply (cache_keys_are_validated_users VisitsJs [(Scenario.at_noon, Scenario.get "42")]).
  simpl. now left.
Defined.

Lemma lower_char_idem c : JS.lower_char (JS.lower_char c) = JS.lower_char c.
Proof. destruct c as [[] [] [] [] [] [] [] []]; reflexivity. Qed.

Lemma toLowerCase_idem s : JS.toLowerCase (JS.toLowerCase s) = JS.toLowerCase s.
Proof.
  induction s as [|c s IH]; simpl; [reflexivity|]. now rewrite lower_char_idem, IH.
Qed.

Lemma toLowerCase_app a b :
  JS.toLowerCase (a ++ b) = JS.toLowerCase a ++ JS.toLowerCase b.
Proof. induction a as [|c a IH]; simpl; [reflexivity | now rewrite IH]. Qed.

Lemma string_app_assoc (a b c : string) : (a ++ b) ++ c = a ++ (b ++ c).
Proof. induction a as [|x a IH]; simpl; [reflexivity | now rewrite IH]. Qed.

Lemma occurs_in_context word s pre post :
  occurs_in word s -> occurs_in word (pre ++ s ++ post).
Proof.
  intros (p & q & ->). exists (pre ++ p), (q ++ post).
  now rewrite !string_app_assoc.
Qed.

Lemma occurs_in_trans a b s : occurs_in a b -> occurs_in b s -> occurs_in a s.
Proof.
  intros (p & q & ->) (p' & q' & ->).
  exists (p' ++ p), (q ++ q'). now rewrite !string_app_assoc.
Qed.

(** X10.  The classifier looks at the lower-cased name only, so it does not
    tell two names that differ in case; and what surrounds a match does not
    matter: a developer role stays one when text is put before or after its
    name. *)
Theorem classification_ignores_case_and_context v :
  (forall a b, JS.toLowerCase a = JS.toLowerCase b ->
     isDeveloperRole_of v a = isDeveloperRole_of v b) /\
  (forall a, isDeveloperRole_of v (JS.toLowerCase a) = isDeveloperRole_of v a) /\
  (forall pre a post,
     isDeveloperRole_of v a = true -> isDeveloperRole_of v (pre ++ a ++ post) = true).
Proof.
  assert (Hcase : forall a b, JS.toLowerCase a = JS.toLowerCase b ->
                    isDeveloperRole_of v a = isDeveloperRole_of v b).
  { intros a b H. destruct v; unfold isDeveloperRole_of, Visits.isDeveloperRole,
      GetVisits.isDeveloperRole; cbv zeta; now rewrite H. }
  split; [exact Hcase|]. split.
  - intros a. apply Hcase, toLowerCase_idem.
  - intros pre a post H. apply isDeveloperRole_spec in H. apply isDeveloperRole_spec.
    destruct H as (word & Hin & Hocc). exists word. split; [exact Hin|].
    rewrite !toLowerCase_app. now apply occurs_in_context.
Qed.

Lemma classification_ignores_case_and_context_witness :
  isDeveloperRole_of VisitsJs "Game OWNER" = isDeveloperRole_of VisitsJs "game owner" /\
  isDeveloperRole_of VisitsJs ("Former " ++ "Builder" ++ " (retired)") = true.
Proof.
  destruct (classification_ignores_case_and_context VisitsJs) as (Hcase & _ & Hctx).
  split; [apply Hcase; reflexivity | apply Hctx; reflexivity].
Defined.

(** X11.  Six of the eleven words are redundant: a role is a developer role
    exactly when its lower-cased name contains [builder], [scripter],
    [programmer], [owner] or [dev]. *)
Theorem five_words_decide v roleName :
  isDeveloperRole_of v roleName = true <->
  exists word,
    In word [ "builder"; "scripter"; "programmer"; "owner"; "dev" ] /\
    occurs_in word (JS.toLowerCase roleName).
Proof.
  rewrite isDeveloperRole_spec. split.
  - intros (word & Hin & Hocc).
    assert (Hcore : exists core,
               In core [ "builder"; "scripter"; "programmer"; "owner"; "dev" ] /\
               occurs_in core word).
    { simpl in Hin.
      repeat (destruct Hin as [<- | Hin]); try contradiction.
      - exists "dev". split; [simpl; tauto | now exists "", "eloper"].
      - exists "builder". split; [simpl; tauto | now exists "", ""].
      - exists "scripter". split; [simpl; tauto | now exists "", ""].
      - exists "programmer". split; [simpl; tauto | now exists "", ""].
      - exists "dev". split; [simpl; tauto | now exists "lead ", "eloper"].
      - exists "owner". split; [simpl; tauto | now exists "co-", ""].
      - exists "owner". split; [simpl; tauto | now exists "", ""].
      - exists "dev". split; [simpl; tauto | now exists "", ""].
      - exists "dev". split; [simpl; tauto | now exists "game ", "eloper"].
      - exists "scripter". split; [simpl; tauto | now exists "lead ", ""].
      - exists "dev". split; [simpl; tauto | now exists "head ", "eloper"]. }
    destruct Hcore as (core & Hc & Hcw). exists core. split; [exact Hc|].
    now apply occurs_in_trans with word.
  - intros (word & Hin & Hocc). exists word. split; [|exact Hocc].
    simpl in Hin. unfold Visits.DEVELOPER_ROLES. simpl.
    repeat (destruct Hin as [<- | Hin]); tauto.
Qed.

(** X12.  The handler calls the upstream only on a request that is not a
    preflight, carries a valid [userId] and finds no fresh entry in the
    cache, and then for that user and no one else: every URL it calls is the
    games URL or the memberships URL of that [userId], or the games URL of
    the group of one of that user's developer-tier memberships.  A
    preflight, a refused request and a request answered from the cache call
    nothing. *)
Theorem only_the_users_urls_are_fetched v e req w :
  exists made,
    fetched (snd (handler_of v e req w)) = (fetched w ++ made)%list /\
    (forall url, In url made ->
      exists userId,
        asks_for req userId /\ cache_hit e userId w = None /\
        (url = userGamesUrl userId \/
         url = userGroupsUrl userId \/
         exists m, In m (memberships v e userId) /\ developer_tier v m = true /\
                   url = groupGamesUrl (groupId_of m))) /\
    (method req = "OPTIONS" -> made = []) /\
    ((forall userId, query_userId req = Some userId -> ~ numeric userId) -> made = []) /\
    (forall userId c, asks_for req userId -> cache_hit e userId w = Some c -> made = []).
Proof.
  destruct (handler_handled v e req w)
    as [Hopt|error usage _ _|userId c Hask _|userId Hask Hmiss];
    try (exists []; split; [now rewrite app_nil_r|];
         split; [intros url []|]; repeat split; reflexivity).
  exists (calls v e userId). split; [apply aggregation_fetched|].
  pose proof Hask as (Hm & Hq & Hn). split; [|split; [|split]].
  - intros url Hin. exists userId. split; [exact Hask|]. split; [exact Hmiss|].
    destruct Hin as [<-|[<-|Hin]]; [now left | right; now left |].
    right; right.
    destruct (plan_reached v (memberships v e userId))
      as (reached & later & Hsplit & Hids & _).
    rewrite Hids, map_map in Hin. apply in_map_iff in Hin. destruct Hin as (m & <- & Hin).
    assert (Hf : In m (filter (developer_tier v) (memberships v e userId)))
      by (rewrite Hsplit; apply in_or_app; now left).
    apply filter_In in Hf. destruct Hf as [Hmem Hdev].
    now exists m.
  - intros Hopt. contradiction.
  - intros Hnone. elim (Hnone userId Hq Hn).
  - intros userId' c (_ & Hq' & _) Hhit.
    rewrite Hq in Hq'. injection Hq' as <-. rewrite Hmiss in Hhit. discriminate.
Qed.

Lemma only_the_users_urls_are_fetched_witness :
  both_files (fun v =>
    let w := snd (handler_of v Scenario.at_noon (Scenario.get "42") Scenario.cold) in
    fetched w = [userGamesUrl "42"; userGroupsUrl "42"; groupGamesUrl (Some 7);
                 groupGamesUrl (Some 9)] /\
    fetched (snd (handler_of v Scenario.soon_after (Scenario.get "42") w)) = fetched w /\
    fetched (snd (handler_of v Scenario.at_noon Scenario.preflight_42 w)) = fetched w /\
    fetched (snd (handler_of v Scenario.at_noon (Scenario.get "abc") w)) = fetched w).
Proof.
  apply both_files_intro. intros v. cbv beta. cbv zeta. split; [destruct v; reflexivity|].
  split; [|split].
  - destruct (only_the_users_urls_are_fetched v Scenario.soon_after (Scenario.get "42")
                (snd (handler_of v Scenario.at_noon (Scenario.get "42") Scenario.cold)))
      as (made & -> & _ & _ & _ & Hhit).
    rewrite (Hhit "42" {| data := Scenario.first_answer; storedAt := 3000 |} asks_for_42).
    + apply app_nil_r.
    + destruct v; reflexivity.
  - destruct (only_the_users_urls_are_fetched v Scenario.at_noon Scenario.preflight_42
                (snd (handler_of v Scenario.at_noon (Scenario.get "42") Scenario.cold)))
      as (made & -> & _ & Hopt & _).
    rewrite (Hopt eq_refl). apply app_nil_r.
  - destruct (only_the_users_urls_are_fetched v Scenario.at_noon (Scenario.get "abc")
                (snd (handler_of v Scenario.at_noon (Scenario.get "42") Scenario.cold)))
      as (made & -> & _ & _ & Hrefused & _).
    rewrite Hrefused; [apply app_nil_r|].
    intros userId [= <-] Hn. apply test_digits_spec in Hn. discriminate Hn.
Defined.

Lemma aggregation_ext v e e' userId w :
  now_result e' = now_result e ->
  now_store e' = now_store e ->
  (forall url, In url (calls v e userId) -> answer v e' url = answer v e url) ->
  aggregation v e' userId w = aggregation v e userId w.
Proof.
  intros Hr Hs Hsame.
  assert (Hm : memberships v e' userId = memberships v e userId).
  { unfold memberships. rewrite Hsame; [reflexivity|]. right. now left. }
  assert (Hp : personal_listing v e' userId = personal_listing v e userId).
  { unfold personal_listing. rewrite Hsame; [reflexivity|]. now left. }
  assert (Hc : calls v e' userId = calls v e userId) by (unfold calls; now rewrite Hm).
  assert (Ha : aggregated v e' userId = aggregated v e userId).
  { unfold aggregated. rewrite Hm, Hp, Hr.
    destruct (group_sums_ext v e v e' (fst (plan v (memberships v e userId)))) as [-> ->];
      [|reflexivity].
    intros g Hg. unfold group_listing. rewrite Hsame; [reflexivity|].
    right; right. now apply in_map. }
  unfold aggregation. now rewrite Hm, Hc, Ha, Hs.
Qed.

(** X13.  The answer depends on the upstream through the URLs fetched
    alone: an upstream that answers those URLs the same way, at the same
    clock readings, gets the same response and leaves the same cache and
    the same record of calls. *)
Theorem answer_depends_on_the_fetched_urls v e e' req w made :
  now_lookup e' = now_lookup e ->
  now_result e' = now_result e ->
  now_store e' = now_store e ->
  fetched (snd (handler_of v e req w)) = (fetched w ++ made)%list ->
  (forall url, In url made -> answer v e' url = answer v e url) ->
  handler_of v e' req w = handler_of v e req w.
Proof.
  intros Hl Hr Hs Hmade Hsame.
  destruct (string_dec (method req) "OPTIONS") as [Hm|Hm].
  { now rewrite !handler_options. }
  destruct (query_userId req) as [userId|] eqn:Hq.
  2: { now rewrite !handler_missing by auto. }
  destruct (string_dec userId "") as [->|Hne].
  { now rewrite !handler_missing by auto. }
  destruct (JS.test_digits userId) eqn:Ht.
  2: { now rewrite !(handler_invalid v _ req w userId) by assumption. }
  assert (Hhit : cache_hit e' userId w = cache_hit e userId w)
    by (unfold cache_hit; now rewrite Hl).
  destruct (cache_hit e userId w) as [c|] eqn:Hc.
  - now rewrite !(handler_hit v _ req w userId c) by assumption.
  - rewrite (handler_miss v e req w userId) in * by assumption.
    rewrite (handler_miss v e' req w userId) by assumption.
    rewrite aggregation_fetched in Hmade. apply app_inv_head in Hmade. subst made.
    now apply aggregation_ext.
Qed.

Lemma answer_depends_on_the_fetched_urls_witness :
  handler_of VisitsJs (Scenario.failing_at "https://example.org/") (Scenario.get "42")
             Scenario.cold
  = handler_of VisitsJs Scenario.at_noon (Scenario.get "42") Scenario.cold.
Proof.
  apply (answer_depends_on_the_fetched_urls VisitsJs Scenario.at_noon
           (Scenario.failing_at "https://example.org/") (Scenario.get "42") Scenario.cold
           (fetched Scenario.warm)); try reflexivity.
  intros url Hin. simpl in Hin.
  repeat (destruct Hin as [<- | Hin]; [reflexivity|]). destruct Hin.
Defined.

Lemma plan_app v l1 l2 :
  plan v (l1 ++ l2) =
  match snd (plan v l1) with
  | Some err => plan v l1
  | None => ((fst (plan v l1) ++ fst (plan v l2))%list, snd (plan v l2))
  end.
Proof.
  induction l1 as [|m l1 IH]; [simpl; now destruct (plan v l2)|].
  destruct m as [pv [[[n|]]|] gr]; simpl; try reflexivity.
  destruct (isDeveloperRole_of v n); [|exact IH].
  destruct gr as [g|]; simpl; [|reflexivity].
  rewrite IH. destruct (snd (plan v l1)) eqn:Hend; simpl; rewrite ?Hend; reflexivity.
Qed.

Lemma for_groups_loop v e groups acc w :
  for_groups_of v e groups acc w = loop_outcome v e groups acc w.
Proof. destruct v; [apply Visits_loop | apply GetVisits_loop]. Qed.

(** X14.  The membership loop composes: over a listing made of two parts it
    does what it does over the first part and then, from the sums reached,
    over the second, and an error in the first part ends it there, before
    any fetch for the second. *)
Theorem for_groups_composes v e l1 l2 acc w :
  for_groups_of v e (l1 ++ l2) acc w =
  bind (for_groups_of v e l1 acc) (fun acc' => for_groups_of v e l2 acc') w.
Proof.
  unfold bind. rewrite !for_groups_loop. unfold loop_outcome at 1 2.
  rewrite plan_app. destruct (snd (plan v l1)) as [err|] eqn:Hend.
  - now rewrite Hend.
  - rewrite for_groups_loop. unfold loop_outcome. cbn [fst snd].
    now rewrite fold_left_app, map_app, pushes_pushes.
Qed.

Lemma visits_in_perm l l' : Permutation l l' -> visits_in l = visits_in l'.
Proof.
  induction 1 as [|x l l' _ IH|x y l|l l' l'' _ IH1 _ IH2]; simpl.
  - reflexivity.
  - now rewrite IH.
  - destruct (placeVisits x), (placeVisits y); lia.
  - congruence.
Qed.

Lemma games_in_perm l l' : Permutation l l' -> games_in l = games_in l'.
Proof. intros H. unfold games_in. now rewrite (Permutation_length H). Qed.

Lemma filter_perm {A} (f : A -> bool) l l' :
  Permutation l l' -> Permutation (filter f l) (filter f l').
Proof.
  induction 1 as [|x l l' _ IH|x y l|l l' l'' _ IH1 _ IH2]; simpl.
  - constructor.
  - destruct (f x); [now constructor | exact IH].
  - destruct (f x), (f y); try reflexivity. constructor.
  - now transitivity (filter f l').
Qed.

Lemma forallb_perm {A} (f : A -> bool) l l' :
  Permutation l l' -> forallb f l = forallb f l'.
Proof.
  induction 1 as [|x l l' _ IH|x y l|l l' l'' _ IH1 _ IH2]; simpl.
  - reflexivity.
  - now rewrite IH.
  - destruct (f x), (f y); reflexivity.
  - congruence.
Qed.

Lemma group_sums_perm v e ids ids' :
  Permutation ids ids' ->
  group_visits v e ids = group_visits v e ids' /\ group_games v e ids = group_games v e ids'.
Proof.
  induction 1 as [|x l l' _ [IHv IHg]|x y l|l l' l'' _ [IH1 IH1'] _ [IH2 IH2']]; simpl.
  - split; reflexivity.
  - now rewrite IHv, IHg.
  - split; lia.
  - split; congruence.
Qed.

Lemma group_sums_pointwise v e e' ids :
  (forall g, Permutation (group_listing v e g) (group_listing v e' g)) ->
  group_visits v e ids = group_visits v e' ids /\ group_games v e ids = group_games v e' ids.
Proof.
  intros H. induction ids as [|g ids [IHv IHg]]; simpl; [split; reflexivity|].
  now rewrite (visits_in_perm _ _ (H g)), (games_in_perm _ _ (H g)), IHv, IHg.
Qed.

Lemma visits_in_nonneg l :
  (forall game n, In game l -> placeVisits game = Some n -> 0 <= n) ->
  0 <= visits_in l.
Proof.
  induction l as [|game l IH]; intros H; simpl; [lia|].
  assert (0 <= visits_in l) by (apply IH; intros g n Hin; apply H; now right).
  destruct (placeVisits game) as [n|] eqn:Hn; [|assumption].
  assert (0 <= n) by (apply (H game n); [now left | exact Hn]). lia.
Qed.

Lemma group_visits_nonneg v e ids :
  (forall url game n,
     In game (listing (answer v e url)) -> placeVisits game = Some n -> 0 <= n) ->
  0 <= group_visits v e ids.
Proof.
  intros H. induction ids as [|g ids IH]; simpl; [lia|].
  assert (0 <= visits_in (group_listing v e g))
    by (apply visits_in_nonneg; intros game n; apply H).
  lia.
Qed.

(** X15.  Where the visit counters are integers that add up exactly in
    double precision (none negative, their total below 2^53), the sums do
    not depend on the order in which the upstream lists things: when every
    listing of one upstream is a permutation of the listing of another and
    the clock readings are the same, a run that answers 200 against the one
    is answered with the same response against the other, and the visit
    sums of that response are non-negative and below 2^53. *)
Theorem sums_ignore_the_order_of_listings v e e' req w userId :
  asks_for req userId ->
  cache_hit e userId w = None ->
  now_lookup e' = now_lookup e ->
  now_result e' = now_result e ->
  (forall url, Permutation (listing (answer v e url)) (listing (answer v e' url))) ->
  exact_in_doubles v e userId ->
  statusCode (fst (handler_of v e req w)) = 200 ->
  fst (handler_of v e' req w) = fst (handler_of v e req w) /\
  exists r,
    sent (fst (handler_of v e req w)) = Some (SuccessBody r) /\
    0 <= personalVisits (the_breakdown r) /\
    0 <= groupVisits (the_breakdown r) /\
    totalVisits r < 2 ^ 53.
Proof.
  intros Hask Hmiss Hl Hr Hperm [Hpos Hsum] H200.
  assert (Hmiss' : cache_hit e' userId w = None)
    by (unfold cache_hit in *; now rewrite Hl).
  rewrite (handler_run v e req w userId Hask Hmiss) in *.
  rewrite (handler_run v e' req w userId Hask Hmiss').
  pose proof (aggregation_status _ _ _ _ H200) as Hend.
  pose proof (Hperm (userGroupsUrl userId)) as Hgroups.
  fold (memberships v e userId) in Hgroups. fold (memberships v e' userId) in Hgroups.
  assert (Hend' : snd (plan v (memberships v e' userId)) = None).
  { apply plan_crash_iff. rewrite <- (forallb_perm _ _ _ Hgroups).
    now apply plan_crash_iff. }
  rewrite (aggregation_ok _ _ _ _ Hend), (aggregation_ok _ _ _ _ Hend'). cbn [fst].
  split.
  - do 2 f_equal. unfold aggregated.
    rewrite (plan_complete _ _ Hend), (plan_complete _ _ Hend'), Hr.
    pose proof (Hperm (userGamesUrl userId)) as Hgames.
    fold (personal_listing v e userId) in Hgames.
    fold (personal_listing v e' userId) in Hgames.
    rewrite <- (visits_in_perm _ _ Hgames), <- (games_in_perm _ _ Hgames).
    assert (Hids : Permutation (developer_groups v (memberships v e userId))
                               (developer_groups v (memberships v e' userId)))
      by (unfold developer_groups; now apply Permutation_map, filter_perm).
    destruct (group_sums_perm v e' _ _ Hids) as [<- <-].
    destruct (group_sums_pointwise v e e' (developer_groups v (memberships v e userId)))
      as [<- <-]; [|reflexivity].
    intros g. apply Hperm.
  - exists (aggregated v e userId). split; [reflexivity|].
    unfold aggregated. rewrite (plan_complete _ _ Hend). simpl.
    split; [|split; [|exact Hsum]].
    + apply visits_in_nonneg. intros game n. apply Hpos.
    + now apply group_visits_nonneg.
Qed.

Lemma reversed_listing v url :
  Permutation (listing (answer v Scenario.at_noon url))
              (listing (answer v Scenario.reversed url)).
Proof.
  unfold answer, Scenario.at_noon, Scenario.reversed. cbn [upstream].
  destruct (Scenario.roblox url (headers_of v)) as [m|st txt [m|[[l|]]]]; simpl;
    try reflexivity.
  destruct (ok st); [apply Permutation_rev | reflexivity].
Defined.

Lemma scenario_exact_in_doubles v : exact_in_doubles v Scenario.at_noon "42".
Proof.
  split; [|destruct v; reflexivity].
  intros url game n. unfold answer, Scenario.at_noon, Scenario.roblox. cbn [upstream].
  destruct (String.eqb url (userGamesUrl "42")).
  { simpl. intros [<-|[<-|[<-|[]]]]; simpl; intros [= <-]; lia. }
  destruct (String.eqb url (userGroupsUrl "42")).
  { simpl. intros [<-|[<-|[<-|[]]]]; simpl; intros [= <-]. }
  destruct (String.eqb url (groupGamesUrl (Some 7))).
  { simpl. intros [<-|[<-|[]]]; simpl; intros [= <-]; lia. }
  simpl. intros [].
Defined.

Lemma sums_ignore_the_order_of_listings_witness :
  both_files (fun v =>
    fst (handler_of v Scenario.reversed (Scenario.get "42") Scenario.cold) =
    fst (handler_of v Scenario.at_noon (Scenario.get "42") Scenario.cold)).
Proof.
  apply both_files_intro. intros v. cbv beta.
  assert (Hmiss : cache_hit Scenario.at_noon "42" Scenario.cold = None) by reflexivity.
  assert (H200 : statusCode (fst (handler_of v Scenario.at_noon (Scenario.get "42")
                                             Scenario.cold)) = 200)
    by (destruct v; reflexivity).
  exact (proj1 (sums_ignore_the_order_of_listings v Scenario.at_noon Scenario.reversed
                  (Scenario.get "42") Scenario.cold "42" asks_for_42 Hmiss eq_refl eq_refl
                  (reversed_listing v) (scenario_exact_in_doubles v) H200)).
Defined.

(** X16.  The eviction goes by the first insertion of a key, not by the age
    of its entry: when the first of 100 keys is refreshed by a run and a
    new user is stored next, the entry just refreshed is the one that goes. *)
Theorem refreshed_first_key_is_evicted v e1 req1 e2 req2 w user1 user2 old rest :
  bounded (cache w) ->
  cache w = ("visits_" ++ user1, old) :: rest ->
  Map.size (cache w) = 100 ->
  asks_for req1 user1 ->
  cache_hit e1 user1 w = None ->
  statusCode (fst (handler_of v e1 req1 w)) = 200 ->
  asks_for req2 user2 ->
  ~ In ("visits_" ++ user2) (Map.keys (cache w)) ->
  statusCode (fst (handler_of v e2 req2 (snd (handler_of v e1 req1 w)))) = 200 ->
  let w1 := snd (handler_of v e1 req1 w) in
  let w2 := snd (handler_of v e2 req2 w1) in
  (exists r, Map.get ("visits_" ++ user1) (cache w1)
             = Some {| data := r; storedAt := now_store e1 |}) /\
  Map.get ("visits_" ++ user1) (cache w2) = None /\
  Map.keys (cache w2) = (Map.keys rest ++ [("visits_" ++ user2)%string])%list.
Proof.
  intros [Hnd Hsz] Hc Hfull Hask1 Hmiss1 H200a Hask2 Hnew H200b. cbv zeta.
  rewrite (handler_run v e1 req1 w user1 Hask1 Hmiss1) in *.
  pose proof (aggregation_status _ _ _ _ H200a) as Hend1.
  rewrite (aggregation_ok _ _ _ _ Hend1) in *. cbn [snd] in *.
  set (v1 := {| data := aggregated v e1 user1; storedAt := now_store e1 |}) in *.
  assert (Hc1 : store ("visits_" ++ user1) v1 (cache w) = ("visits_" ++ user1, v1) :: rest).
  { rewrite store_overwrite; [|exact Hsz | rewrite Hc; now left].
    rewrite Hc. simpl. now rewrite String.eqb_refl. }
  rewrite Hc1 in *.
  set (w1 := {| cache := ("visits_" ++ user1, v1) :: rest;
                fetched := (fetched w ++ calls v e1 user1)%list |}) in *.
  assert (Hnew1 : ~ In ("visits_" ++ user2) (Map.keys (cache w1)))
    by (rewrite Hc in Hnew; exact Hnew).
  assert (Hmiss2 : cache_hit e2 user2 w1 = None).
  { unfold cache_hit. now rewrite (proj2 (get_None_iff _ _) Hnew1). }
  rewrite (handler_run v e2 req2 w1 user2 Hask2 Hmiss2) in *.
  pose proof (aggregation_status _ _ _ _ H200b) as Hend2.
  rewrite (aggregation_ok _ _ _ _ Hend2). cbn [snd cache].
  rewrite (store_full _ _ _ ("visits_" ++ user1) v1 rest);
    [|reflexivity | rewrite Hc in Hfull; exact Hfull | exact Hnew1].
  split; [exists (aggregated v e1 user1); simpl; now rewrite String.eqb_refl|].
  split; [|apply keys_app_one].
  apply get_None_iff. rewrite keys_app_one. intros Hin. apply in_app_or in Hin.
  rewrite Hc in Hnd, Hnew. simpl in Hnd, Hnew. inversion Hnd as [|k ks Hout _]; subst.
  destruct Hin as [Hin|[Heq|[]]]; [now apply Hout | apply Hnew; now left].
Qed.

Lemma refreshed_first_key_is_evicted_witness :
  let w := serve VisitsJs Scenario.hundred_users in
  let w1 := snd (handler_of VisitsJs Scenario.much_later (Scenario.get "100") w) in
  let w2 := snd (handler_of VisitsJs Scenario.much_later (Scenario.get "42") w1) in
  Map.get "visits_100" (cache w2) = None /\
  Map.keys (cache w2) = (Map.keys (tl (cache w)) ++ ["visits_42"])%list.
Proof.
  cbv zeta.
  assert (Hask : asks_for (Scenario.get "100") "100").
  { split; [discriminate | split; [reflexivity | apply test_digits_spec; reflexivity]]. }
  destruct (refreshed_first_key_is_evicted VisitsJs
              Scenario.much_later (Scenario.get "100")
              Scenario.much_later (Scenario.get "42")
              (serve VisitsJs Scenario.hundred_users) "100" "42"
              {| data := summary (0, 0) (0, 0) 2000; storedAt := 3000 |}
              (tl (cache (serve VisitsJs Scenario.hundred_users))))
    as (_ & Hgone & Hkeys).
  - apply serve_bounded.
  - vm_compute. reflexivity.
  - vm_compute. reflexivity.
  - exact Hask.
  - vm_compute. reflexivity.
  - vm_compute. reflexivity.
  - exact asks_for_42.
  - apply (proj1 (get_None_iff _ _)). vm_compute. reflexivity.
  - vm_compute. reflexivity.
  - split; [exact Hgone | exact Hkeys].
Defined.
